(** * Wordle Buster: the scoring and filtering engine

    A shallow embedding of [wordle_engine.py] (the scorer, the consistency
    checker, the candidate filter, the session object, the vocabulary loader
    and the command-line turn) and of the session bootstrap, the handlers
    and a run of the script of [streamlit_app.py], followed by their
    properties. *)

From Stdlib Require Import Ascii String.
From stdpp Require Import base decidable numbers option list.

Open Scope nat_scope.

(** ** Python values *)

(** A Python [str] is a sequence of Unicode code points. *)
Abbreviation char := N (only parsing).
Abbreviation str := (list N) (only parsing).

(** String literals of the source, as code-point sequences. *)
Fixpoint lit (s : string) : str :=
  match s with
  | EmptyString => []
  | String a s' => N_of_ascii a :: lit s'
  end.

(** A one-character literal such as ["g"]. *)
Definition chr (a : ascii) : char := N_of_ascii a.
Arguments chr : simpl never.

(** The exceptions that the modelled code can raise. *)
Inductive exn : Set :=
  | AssertionError
  | IndexError
  | ValueError.

Inductive result (A : Type) : Type :=
  | Ok (a : A)
  | Raise (e : exn).
Arguments Ok {A} a.
Arguments Raise {A} e.

Definition result_bind {A B} (f : A -> result B) (m : result A) : result B :=
  match m with
  | Ok a => f a
  | Raise e => Raise e
  end.

#[global] Instance result_ret : MRet result := fun A a => Ok a.
#[global] Instance result_mbind : MBind result := fun A B f m => result_bind f m.

#[global] Instance exn_eq_dec : EqDecision exn.
Proof. solve_decision. Defined.

#[global] Instance result_eq_dec {A} `{EqDecision A} : EqDecision (result A).
Proof. solve_decision. Defined.

(** The string methods the engine calls.  They belong to the Python runtime
    (their behaviour is fixed by the Unicode tables), not to the repository,
    so the engine is modelled over an arbitrary implementation of them. *)
Class Builtins : Type := {
  lower : str -> str;      (* str.lower() *)
  strip : str -> str;      (* str.strip() *)
  isalpha : str -> bool    (* str.isalpha() *)
}.

(** What the three methods do on ASCII text, used to run the model on
    concrete ASCII inputs. *)
Definition ascii_lower_char (c : char) : char :=
  if ((65 <=? c) && (c <=? 90))%N then (c + 32)%N else c.

Definition ascii_isspace (c : char) : bool :=
  (((9 <=? c) && (c <=? 13)) || ((28 <=? c) && (c <=? 32)))%N.

Definition ascii_isalpha_char (c : char) : bool :=
  (((65 <=? c) && (c <=? 90)) || ((97 <=? c) && (c <=? 122)))%N.

Fixpoint lstrip (s : str) : str :=
  match s with
  | [] => []
  | c :: s' => if ascii_isspace c then lstrip s' else s
  end.

Definition ascii_strip (s : str) : str := reverse (lstrip (reverse (lstrip s))).

Definition ascii_isalpha (s : str) : bool :=
  match s with
  | [] => false
  | _ => forallb ascii_isalpha_char s
  end.

Definition ascii_builtins : Builtins :=
  {| lower := map ascii_lower_char; strip := ascii_strip; isalpha := ascii_isalpha |}.

(** Lower-casing can change the length of a string: [str.lower] maps
    U+0130 (capital I with dot above) to the two code points U+0069 U+0307.
    The same methods with that one character added. *)
Definition dotted_lower_char (c : char) : str :=
  if (c =? 304)%N then [105; 775]%N else [ascii_lower_char c].

Definition dotted_isalpha (s : str) : bool :=
  match s with
  | [] => false
  | _ => forallb (fun c => ascii_isalpha_char c || (c =? 304)%N) s
  end.

Definition dotted_builtins : Builtins :=
  {| lower := flat_map dotted_lower_char;
     strip := ascii_strip;
     isalpha := dotted_isalpha |}.

(** List indexing as Python does it: out of range raises. *)
Definition getitem {A} (l : list A) (i : nat) : result A :=
  match l !! i with
  | Some x => Ok x
  | None => Raise IndexError
  end.

Definition setitem {A} (l : list A) (i : nat) (x : A) : result (list A) :=
  if decide (i < length l) then Ok (<[i:=x]> l) else Raise IndexError.

(** [l.index(x)]: the first position holding [x]. *)
Definition index {A} `{EqDecision A} (l : list A) (x : A) : result nat :=
  match list_find (fun y => y = x) l with
  | Some (j, _) => Ok j
  | None => Raise ValueError
  end.

(** [for i in idxs: body], threading the loop's variables. *)
Fixpoint for_each {S} (idxs : list nat) (body : nat -> S -> result S) (s : S)
  : result S :=
  match idxs with
  | [] => Ok s
  | i :: rest => s' ← body i s; for_each rest body s'
  end.

(** [range(n)] *)
Definition range (n : nat) : list nat := seq 0 n.

(** ** wordle_engine.py *)

Record GuessResult : Type := mkGuessResult {
  word : str;     (* the guessed word *)
  pattern : str   (* the pattern string *)
}.

Record WordleSession : Type := mkWordleSession {
  word_list : list str;
  history : list GuessResult
}.

Section Engine.
Context `{Builtins}.

(** The loader; the file is given as the lines that iterating it yields. *)
Definition load_word_list (lines : list str) : list str :=
  foldl (fun words line =>
           let w := lower (strip line) in
           if bool_decide (length w = 5) && isalpha w
           then words ++ [w]
           else words)
        [] lines.

(** [WordleSession.__init__] *)
Definition new_session (wl : list str) : WordleSession :=
  {| word_list := wl; history := [] |}.

Definition add_guess (session : WordleSession) (w p : str) : WordleSession :=
  {| word_list := word_list session;
     history := history session ++ [ {| word := w; pattern := p |} ] |}.

Definition get_history_tuples (session : WordleSession) : list (str * str) :=
  (fun g => (word g, pattern g)) <$> history session.

(** Body of the first loop of [score_guess]: mark greens. *)
Definition mark_green (guess : str) (i : nat)
    (st : str * list (option char)) : result (str * list (option char)) :=
  let '(res, secret_chars) := st in
  gi ← getitem guess i;
  si ← getitem secret_chars i;
  if decide (Some gi = si) then
    res' ← setitem res i (chr "g");
    secret_chars' ← setitem secret_chars i None;
    Ok (res', secret_chars')
  else Ok (res, secret_chars).

(** Body of the second loop of [score_guess]: mark yellows. *)
Definition mark_yellow (guess : str) (i : nat)
    (st : str * list (option char)) : result (str * list (option char)) :=
  let '(res, secret_chars) := st in
  ri ← getitem res i;
  if decide (ri = chr "g") then Ok (res, secret_chars)
  else
    gi ← getitem guess i;
    if decide (Some gi ∈ secret_chars) then
      res' ← setitem res i (chr "y");
      j ← index secret_chars (Some gi);
      secret_chars' ← setitem secret_chars j None;
      Ok (res', secret_chars')
    else Ok (res, secret_chars).

Definition score_guess (secret guess : str) : result str :=
  let secret := lower secret in
  let guess := lower guess in
  if decide (length secret = length guess ∧ length guess = 5) then
    let res := replicate 5 (chr "b") in
    let secret_chars := Some <$> secret in
    st ← for_each (range 5) (mark_green guess) (res, secret_chars);
    st' ← for_each (range 5) (mark_yellow guess) st;
    Ok (fst st')
  else Raise AssertionError.

Fixpoint word_matches_history (candidate : str) (hist : list (str * str))
  : result bool :=
  match hist with
  | [] => Ok true
  | (guess, pat) :: rest =>
      p ← score_guess candidate guess;
      if decide (p ≠ pat) then Ok false
      else word_matches_history candidate rest
  end.

(** The list comprehension of [filter_candidates], word by word. *)
Fixpoint filter_candidates (words : list str) (hist : list (str * str))
  : result (list str) :=
  match words with
  | [] => Ok []
  | w :: ws =>
      keep ← word_matches_history w hist;
      rest ← filter_candidates ws hist;
      Ok (if keep : bool then w :: rest else rest)
  end.

Definition get_candidates (session : WordleSession) : result (list str) :=
  filter_candidates (word_list session) (get_history_tuples session).

(** One iteration of the loop of [main]: what it does with the two lines it
    reads (the second is read only when the first is accepted). *)
Inductive turn : Type :=
  | Quit
  | RejectedGuess
  | RejectedPattern
  | Accepted (session : WordleSession) (candidates : result (list str)).

Definition cli_turn (session : WordleSession) (guess_in pattern_in : str) : turn :=
  let guess := lower (strip guess_in) in
  if decide (guess = []) then Quit
  else if bool_decide (length guess ≠ 5) || negb (isalpha guess) then RejectedGuess
  else
    let pat := lower (strip pattern_in) in
    if bool_decide (length pat ≠ 5)
       || existsb (fun ch => bool_decide (ch ∉ lit "gyb")) pat
    then RejectedPattern
    else
      let session' := add_guess session guess pat in
      Accepted session' (get_candidates session').

End Engine.


(** ** streamlit_app.py: session bootstrap and reset *)

(** [st.session_state]: a dictionary whose four keys may be absent. *)
Record SessionState : Type := mkSessionState {
  ss_word_list : option (list str);            (* "word_list" *)
  ss_session : option WordleSession;           (* "session" *)
  ss_color_grid : option (list (list char));   (* "color_grid" *)
  ss_active_row : option nat                   (* "active_row" *)
}.

(** The state of a new browser session: no key is set. *)
Definition empty_session_state : SessionState :=
  {| ss_word_list := None; ss_session := None;
     ss_color_grid := None; ss_active_row := None |}.

(** [st.session_state.clear()] *)
Definition session_state_clear (ss : SessionState) : SessionState :=
  empty_session_state.

Section App.
Context `{Builtins}.

(** [init_state]; [file] is the content of words.txt when it runs. *)
Definition init_state (file : list str) (ss : SessionState) : SessionState :=
  let wl :=
    match ss_word_list ss with
    | Some wl => wl
    | None => load_word_list file
    end in
  let session :=
    match ss_session ss with
    | Some s => s
    | None => new_session wl
    end in
  let grid :=
    match ss_color_grid ss with
    | Some g => g
    | None => replicate 6 (replicate 5 (chr "b"))
    end in
  let row :=
    match ss_active_row ss with
    | Some r => r
    | None => 0
    end in
  {| ss_word_list := Some wl; ss_session := Some session;
     ss_color_grid := Some grid; ss_active_row := Some row |}.

End App.

(** ** The scoring rule as the specification words it *)

Inductive symbol : Set :=
  | Green
  | Yellow
  | Grey.

Definition symbol_code (s : symbol) : char :=
  match s with
  | Green => chr "g"
  | Yellow => chr "y"
  | Grey => chr "b"
  end.

(** Pass 1: position i is green, and the secret letter at i consumed, exactly
    when guess[i] = secret[i]. *)
Definition spec_pass1_pattern (secret guess : str) : list symbol :=
  zip_with (fun g s => if decide (g = s) then Green else Grey) guess secret.

Definition spec_pass1_consumed (secret guess : str) : list bool :=
  zip_with (fun g s => bool_decide (g = s)) guess secret.

(** The leftmost position of the secret that holds [c] and is not consumed. *)
Definition first_unconsumed (secret : str) (consumed : list bool) (c : char)
  : option nat :=
  fst <$> list_find (fun su => su.1 = c ∧ su.2 = false) (zip secret consumed).

(** Pass 2, left to right over the positions (their symbol after pass 1 and
    their guess letter): a position that is not green turns yellow and consumes
    the first unconsumed occurrence of its letter if there is one, and stays
    grey otherwise. *)
Fixpoint spec_pass2 (secret : str) (todo : list (symbol * char))
    (consumed : list bool) : list symbol :=
  match todo with
  | [] => []
  | (Green, _) :: rest => Green :: spec_pass2 secret rest consumed
  | (_, c) :: rest =>
      match first_unconsumed secret consumed c with
      | Some j => Yellow :: spec_pass2 secret rest (<[j:=true]> consumed)
      | None => Grey :: spec_pass2 secret rest consumed
      end
  end.

Definition spec_score (secret guess : str) : list symbol :=
  spec_pass2 secret
    (zip (spec_pass1_pattern secret guess) guess)
    (spec_pass1_consumed secret guess).

(** ** Closed forms of the two loops, and letter counts *)

(** The state the first loop of [score_guess] ends in. *)
Definition greens (guess secret : str) : str :=
  zip_with (fun g s => if decide (g = s) then chr "g" else chr "b") guess secret.

Definition leftover (guess secret : str) : list (option char) :=
  zip_with (fun g s => if decide (g = s) then None else Some s) guess secret.

(** [secret_chars[secret_chars.index(c)] = None] *)
Definition consume (c : char) (secret_chars : list (option char))
  : list (option char) :=
  match list_find (fun y => y = Some c) secret_chars with
  | Some (j, _) => <[j:=None]> secret_chars
  | None => secret_chars
  end.

(** The second loop, by recursion on the positions still to visit (their
    current symbol and their guess letter). *)
Fixpoint yellows (todo : list (char * char)) (secret_chars : list (option char))
  : str * list (option char) :=
  match todo with
  | [] => ([], secret_chars)
  | (r, g) :: rest =>
      if decide (r = chr "g") then
        let '(out, sc) := yellows rest secret_chars in (r :: out, sc)
      else if decide (Some g ∈ secret_chars) then
        let '(out, sc) := yellows rest (consume g secret_chars) in
        (chr "y" :: out, sc)
      else
        let '(out, sc) := yellows rest secret_chars in (r :: out, sc)
  end.

(** [s.count(c)] *)
Definition count {A} `{EqDecision A} (c : A) (l : list A) : nat :=
  length (filter (fun x => x = c) l).

(** Number of symbols of a pattern that are not grey. *)
Definition non_grey (p : str) : nat :=
  length (filter (fun r => r ≠ chr "b") p).

(** Number of positions where the pattern is not grey and the guess has [c]. *)
Definition non_grey_of (c : char) (p guess : str) : nat :=
  length (filter (fun rg => rg.1 ≠ chr "b" ∧ rg.2 = c) (zip p guess)).

(** Size of the multiset intersection of the letters of two words: the sum,
    over the distinct letters of [s] (the others contribute 0), of the smaller
    of the two multiplicities. *)
Definition shared_letters (s g : str) : nat :=
  sum_list ((fun c => count c s `min` count c g) <$> remove_dups s).

(** Shape of the words the engine works on. *)
Definition scorable `{Builtins} (w : str) : Prop := length (lower w) = 5.

#[global] Instance scorable_dec `{Builtins} w : Decision (scorable w).
Proof. unfold scorable. apply _. Defined.

(** [score_guess(c, g) == p], as a boolean. *)
Definition reproduces `{Builtins} (c : str) (r : str * str) : bool :=
  bool_decide (score_guess c r.1 = Ok r.2).

(** [isConsistent] of the specification: every record is reproduced. *)
Definition consistent `{Builtins} (hist : list (str * str)) (c : str) : bool :=
  forallb (reproduces c) hist.

(** What [secret_chars] holds when the positions flagged in [consumed] have
    been consumed. *)
Definition mask (secret : str) (consumed : list bool) : list (option char) :=
  zip_with (fun s used => if used : bool then None else Some s) secret consumed.

(** A line of the word source after [strip().lower()], and the test the
    loader and the command-line loop apply to it. *)
Definition normalise `{Builtins} (line : str) : str := lower (strip line).

Definition word_shaped `{Builtins} (w : str) : bool :=
  bool_decide (length w = 5) && isalpha w.

(** A pattern of exactly five symbols among g, y and b. *)
Definition pattern_shaped (p : str) : Prop :=
  length p = 5 /\ Forall (fun ch => ch ∈ lit "gyb") p.

(** ** wordle_engine.py: the board and the loop of [main] *)

(** Exceptions of the code around the engine: a missing dictionary key, the
    end of standard input, and those of the engine. *)
Inductive py_exn : Set :=
  | KeyError
  | EOFError
  | Engine (e : exn).

(** A dictionary with one-character keys, and [d[k]]. *)
Fixpoint dict_get {V} (d : list (char * V)) (k : char) : option V :=
  match d with
  | [] => None
  | (k', v) :: d' => if decide (k' = k) then Some v else dict_get d' k
  end.

Definition COLOR_SYMBOLS : list (char * str) :=
  [(chr "g", lit "G"); (chr "y", lit "Y"); (chr "b", lit ".")].

(** [sep.join(parts)] *)
Fixpoint join (sep : str) (parts : list str) : str :=
  match parts with
  | [] => []
  | [p] => p
  | p :: rest => p ++ sep ++ join sep rest
  end.

(** [COLOR_SYMBOLS[ch] for ch in pattern], as far as it gets: the symbols, or
    nothing when a lookup fails. *)
Fixpoint board_symbols (pat : str) : option (list str) :=
  match pat with
  | [] => Some []
  | ch :: rest =>
      match dict_get COLOR_SYMBOLS ch with
      | Some sym =>
          match board_symbols rest with
          | Some syms => Some (sym :: syms)
          | None => None
          end
      | None => None
      end
  end.

Section Board.
Context `{Builtins}.
(** [str.upper()], one more method of the runtime. *)
Variable upper : str -> str.

(** The text of a filled row, unless a symbol of the pattern is no key of
    [COLOR_SYMBOLS]. *)
Definition board_row (gr : GuessResult) : option str :=
  let letters := join (lit " ") ((fun c => [c]) <$> upper (word gr)) in
  match board_symbols (pattern gr) with
  | Some syms => Some (letters ++ lit "   " ++ join (lit " ") syms)
  | None => None
  end.

(** The rows [i], [i+1], ... of the board, printed until one raises. *)
Fixpoint board_rows (hist : list GuessResult) (rows : list nat)
  : list str * option py_exn :=
  match rows with
  | [] => ([], None)
  | i :: rest =>
      match hist !! i with
      | Some gr =>
          match board_row gr with
          | Some row =>
              let '(out, e) := board_rows hist rest in (row :: out, e)
          | None => ([], Some KeyError)
          end
      | None =>
          let '(out, e) := board_rows hist rest in
          (lit "_ _ _ _ _   _ _ _ _ _" :: out, e)
      end
  end.

(** [print_board]: the texts it prints, one per call of [print], and the
    exception that stopped it, if one did. *)
Definition print_board (session : WordleSession) : list str * option py_exn :=
  let '(rows, e) := board_rows (history session) (range 6) in
  match e with
  | Some _ => ((10%N :: lit "Current board:") :: rows, e)
  | None => ((10%N :: lit "Current board:") :: rows ++ [ [] ], None)
  end.

(** How a run of [main] ends: by the blank guess, or by an exception. *)
Inductive main_end : Type :=
  | Goodbye (session : WordleSession)
  | Stopped (session : WordleSession) (e : py_exn).

(** The loop of [main] on the lines that standard input holds; what the loop
    prints besides the board is left out.  A turn reads the second line only
    when it accepts the first, and [input] raises EOFError when no line is
    left. *)
Fixpoint cli_run (session : WordleSession) (inputs : list str) : main_end :=
  match (print_board session).2 with
  | Some e => Stopped session e
  | None =>
      match inputs with
      | [] => Stopped session EOFError
      | guess_in :: tl =>
          match cli_turn session guess_in (default [] (head tl)) with
          | Quit => Goodbye session
          | RejectedGuess => cli_run session tl
          | RejectedPattern =>
              match tl with
              | [] => Stopped session EOFError
              | _ :: rest => cli_run session rest
              end
          | Accepted session' cands =>
              match tl with
              | [] => Stopped session EOFError
              | _ :: rest =>
                  match cands with
                  | Ok _ => cli_run session' rest
                  | Raise e => Stopped session' (Engine e)
                  end
              end
          end
      end
  end.

(** [main], on the lines of words.txt and of standard input. *)
Definition main (file inputs : list str) : main_end :=
  cli_run (new_session (load_word_list file)) inputs.

End Board.

(** [str.upper()] on ASCII text. *)
Definition ascii_upper_char (c : char) : char :=
  if ((97 <=? c) && (c <=? 122))%N then (c - 32)%N else c.

Definition ascii_upper (s : str) : str := map ascii_upper_char s.

(** The session a run of [main] ends with. *)
Definition end_session (m : main_end) : WordleSession :=
  match m with
  | Goodbye s => s
  | Stopped s _ => s
  end.

(** A record as the loop of [main] accepts them. *)
Definition record_shaped `{Builtins} (g : GuessResult) : Prop :=
  word_shaped (word g) = true /\ pattern_shaped (pattern g).

(** A session on which neither the scorer nor the board can fail: words and
    guesses are scorable and the patterns hold symbols of the board only. *)
Definition session_ok `{Builtins} (s : WordleSession) : Prop :=
  Forall scorable (word_list s)
  /\ Forall (fun g => scorable (word g)
                      /\ Forall (fun ch => ch ∈ lit "gyb") (pattern g))
            (history s).

(** ** streamlit_app.py: the colour grid, the guess form and the board *)

(** What a handler of the page does: it returns, or an exception stops the
    run of the script. *)
Inductive outcome (A : Type) : Type :=
  | Done (a : A)
  | Crash (e : py_exn).
Arguments Done {A} a.
Arguments Crash {A} e.

(** [l[i]] in a handler. *)
Definition item {A} (l : list A) (i : nat) : outcome A :=
  match l !! i with
  | Some x => Done x
  | None => Crash (Engine IndexError)
  end.

(** [st.session_state[key]] *)
Definition state_key {A} (v : option A) : outcome A :=
  match v with
  | Some x => Done x
  | None => Crash KeyError
  end.

Definition outcome_bind {A B} (f : A -> outcome B) (m : outcome A) : outcome B :=
  match m with
  | Done a => f a
  | Crash e => Crash e
  end.

#[global] Instance outcome_ret : MRet outcome := fun A a => Done a.
#[global] Instance outcome_mbind : MBind outcome :=
  fun A B f m => outcome_bind f m.

(** [colors] of [cycle_color] *)
Definition colors : list char := [chr "b"; chr "y"; chr "g"].

(** [cycle_color(row, col)], up to the rerun it asks for. *)
Definition cycle_color (row col : nat) (ss : SessionState) : outcome SessionState :=
  grid ← state_key (ss_color_grid ss);
  cells ← item grid row;
  current ← item cells col;
  idx ← match index colors current with
        | Ok i => Done i
        | Raise e => Crash (Engine e)
        end;
  next_color ← item colors ((idx + 1) mod length colors);
  Done {| ss_word_list := ss_word_list ss;
          ss_session := ss_session ss;
          ss_color_grid := Some (<[row := <[col := next_color]> cells]> grid);
          ss_active_row := ss_active_row ss |}.

(** The colour after [c] in the cycle b, y, g. *)
Definition next_color (c : char) : char :=
  if decide (c = chr "b") then chr "y"
  else if decide (c = chr "y") then chr "g"
  else chr "b".

Section Page.
Context `{Builtins}.
Variable upper : str -> str.

(** One tile of the board: its class and its letter. *)
Definition tile_html (tile_class letter : str) : str :=
  lit "<div class=" ++ [34%N] ++ lit "wordle-tile " ++ tile_class ++ [34%N]
  ++ lit ">" ++ letter ++ lit "</div>".

Definition div_open (class : str) : str :=
  lit "<div class=" ++ [34%N] ++ class ++ [34%N] ++ lit ">".

(** The inner loop of [render_board], over the columns [js]. *)
Fixpoint render_tiles (w pat : str) (js : list nat) : outcome (list str) :=
  match js with
  | [] => Done []
  | j :: rest =>
      let letter :=
        match w !! j with
        | Some c => if decide (c ≠ chr " ") then [c] else lit "&nbsp;"
        | None => lit "&nbsp;"
        end in
      p ← item pat j;
      let tile_class :=
        if decide (p = chr "g") then lit "tile-green"
        else if decide (p = chr "y") then lit "tile-yellow"
        else lit "tile-grey" in
      tiles ← render_tiles w pat rest;
      Done (tile_html tile_class letter :: tiles)
  end.

(** The outer loop, over the rows [rows]. *)
Fixpoint render_rows (hist : list GuessResult) (rows : list nat)
  : outcome (list str) :=
  match rows with
  | [] => Done []
  | i :: rest =>
      let '(w, pat) :=
        match hist !! i with
        | Some gr => (upper (word gr), pattern gr)
        | None => (lit "     ", lit "bbbbb")
        end in
      tiles ← render_tiles w pat (range 5);
      html ← render_rows hist rest;
      Done (div_open (lit "wordle-row") :: tiles ++ lit "</div>" :: html)
  end.

(** [render_board]: the text it hands to [st.markdown]. *)
Definition render_board (session : WordleSession) : outcome str :=
  rows ← render_rows (history session) (range 6);
  Done (join [10%N] (div_open (lit "wordle-board") :: rows ++ [lit "</div>"])).

End Page.



(** ** streamlit_app.py: a run of the script

    The page code (the form, the Reset button, the grid, the board) stands at
    module level, after the definition of [main] and before the call of
    [main] on the last line. *)

(** The widget whose use started the run, if one did. *)
Inductive widget : Type :=
  | NoWidget
  | ApplyGuess (text : str)   (* the form, submitted with [text] in its field *)
  | ResetButton
  | CellButton (r c : nat).

Inductive script_exn : Set :=
  | Py (e : py_exn)
  | NameError.

(** How a pass through the script ends, and the session state it leaves:
    [st.rerun()] was called, or an exception stopped it. *)
Inductive pass_end : Type :=
  | Rerun (ss : SessionState)
  | Raised (ss : SessionState) (e : script_exn).

(** A step that can raise, followed by the rest of the pass. *)
Definition try_py {A} (ss : SessionState) (m : outcome A) (k : A -> pass_end)
  : pass_end :=
  match m with
  | Done a => k a
  | Crash e => Raised ss (Py e)
  end.

(** [COLOR_EMOJI[ch]]: only whether the key is there matters here. *)
Definition emoji_key (ch : char) : outcome unit :=
  if decide (ch ∈ lit "gyb") then Done () else Crash KeyError.

(** The thirty buttons in the order [render_clickable_grid] makes them. *)
Definition grid_cells : list (nat * nat) :=
  flat_map (fun r => map (fun c => (r, c)) (range 5)) (range 6).

(** The button of cell (r, c) returns True: it was clicked, and it is
    enabled, that is on the active row. *)
Definition clicked (w : widget) (r c active_row : nat) : bool :=
  match w with
  | CellButton r' c' => bool_decide (r' = r /\ c' = c /\ r = active_row)
  | _ => false
  end.

Section Script.
Context `{Builtins}.

(** Lines 224-250, the form.  A refused word shows an error and the pass goes
    on.  An accepted word reads the active row and its colours and then
    evaluates [session.add_guess]: the name [session] is bound nowhere at
    module level (its only assignment is local to [main]), so that raises
    NameError. *)
Definition form_step (w : widget) (ss : SessionState) (k : pass_end) : pass_end :=
  match w with
  | ApplyGuess text =>
      let guess := lower (strip text) in
      if bool_decide (length guess ≠ 5) || negb (isalpha guess) then k
      else
        try_py ss (state_key (ss_active_row ss)) (fun row =>
        try_py ss (grid ← state_key (ss_color_grid ss); item grid row) (fun pat =>
        Raised ss NameError))
  | _ => k
  end.

(** Lines 252-254, the Reset button. *)
Definition reset_step (w : widget) (ss : SessionState) (k : pass_end) : pass_end :=
  match w with
  | ResetButton => Rerun (session_state_clear ss)
  | _ => k
  end.

(** The loops of [render_clickable_grid] over the cells still to make. *)
Fixpoint grid_buttons (w : widget) (ss : SessionState) (active_row : nat)
    (cells : list (nat * nat)) (k : pass_end) : pass_end :=
  match cells with
  | [] => k
  | (r, c) :: rest =>
      try_py ss (grid ← state_key (ss_color_grid ss);
                 row ← item grid r;
                 color ← item row c;
                 emoji_key color)
        (fun _ =>
           if clicked w r c active_row
           then try_py ss (cycle_color r c ss) Rerun
           else grid_buttons w ss active_row rest k)
  end.

(** Line 259, [render_clickable_grid()]. *)
Definition grid_step (w : widget) (ss : SessionState) (k : pass_end) : pass_end :=
  try_py ss (state_key (ss_active_row ss)) (fun active_row =>
  grid_buttons w ss active_row grid_cells k).

(** One pass through the script.  After the grid comes
    [render_board(session)] on line 263, which raises NameError for the same
    unbound name; the call of [main], and with it [init_state], comes after
    that line. *)
Definition script_pass (w : widget) (ss : SessionState) : pass_end :=
  form_step w ss (reset_step w ss (grid_step w ss (Raised ss NameError))).

(** A run: the pass that the widget started and, if it asked for a rerun, the
    pass that follows, in which no widget is used. *)
Definition script_run (w : widget) (ss : SessionState) : pass_end :=
  match script_pass w ss with
  | Rerun ss' => script_pass NoWidget ss'
  | Raised ss' e => Raised ss' e
  end.

End Script.

(** The grid as [init_state] builds it and [cycle_color] keeps it: six rows,
    each a pattern. *)
Definition grid_ok (grid : list (list char)) : Prop :=
  length grid = 6 /\ Forall pattern_shaped grid.

(** A well-formed page state, as [init_state] builds it and [cycle_color]
    keeps it: the four keys are set, the grid is well formed, the active row
    is one of the six, and every record of the session is validated. *)
Definition page_ok `{Builtins} (ss : SessionState) : Prop :=
  exists wl session grid row,
    ss = {| ss_word_list := Some wl; ss_session := Some session;
            ss_color_grid := Some grid; ss_active_row := Some row |}
    /\ grid_ok grid /\ row <= 5 /\ Forall record_shaped (history session).

(** [st.session_state["color_grid"][r][c]], when it is there. *)
Definition cell (ss : SessionState) (r c : nat) : option char :=
  grid ← ss_color_grid ss; cells ← grid !! r; cells !! c.

(** * Properties *)

(** ** The loops of [score_guess] *)

Lemma getitem_middle {A} (pre : list A) (x : A) (post : list A) (k : nat) :
  k = length pre -> getitem (pre ++ x :: post) k = Ok x.
Proof. intros ->. unfold getitem. by rewrite list_lookup_middle. Qed.

Lemma setitem_middle {A} (pre : list A) (x y : A) (post : list A) (k : nat) :
  k = length pre -> setitem (pre ++ x :: post) k y = Ok (pre ++ y :: post).
Proof.
  intros ->. unfold setitem.
  rewrite decide_True by (rewrite length_app; simpl; lia).
  f_equal. rewrite insert_app_r_alt by lia. by rewrite Nat.sub_diag.
Qed.

Lemma snoc_app {A} (pre : list A) (x : A) (post : list A) :
  pre ++ x :: post = (pre ++ [x]) ++ post.
Proof. by rewrite <- app_assoc. Qed.

Lemma for_each_cons {S} (i : nat) (rest : list nat)
    (body : nat -> S -> result S) (s : S) :
  for_each (i :: rest) body s = body i s ≫= for_each rest body.
Proof. reflexivity. Qed.

Lemma bind_Ok {A B} (a : A) (f : A -> result B) : Ok a ≫= f = f a.
Proof. reflexivity. Qed.

Lemma mark_green_at (gp : str) (g : char) (gs rp : str) (r : char) (rs : str)
    (sp : list (option char)) (s : char) (ss : list (option char)) (k : nat) :
  k = length gp -> k = length rp -> k = length sp ->
  mark_green (gp ++ g :: gs) k (rp ++ r :: rs, sp ++ Some s :: ss)
  = Ok (rp ++ (if decide (g = s) then chr "g" else r) :: rs,
        sp ++ (if decide (g = s) then None else Some s) :: ss).
Proof.
  intros Hg Hr Hs. unfold mark_green.
  rewrite (getitem_middle gp), bind_Ok by done.
  rewrite (getitem_middle sp), bind_Ok by done.
  destruct (decide (g = s)) as [->|Hne].
  - rewrite decide_True by done.
    rewrite (setitem_middle rp), bind_Ok by done.
    by rewrite (setitem_middle sp), bind_Ok by done.
  - by rewrite decide_False by congruence.
Qed.

Lemma mark_green_loop (gs ss guess_pre res_pre : str) (sc_pre : list (option char)) :
  length guess_pre = length res_pre ->
  length sc_pre = length res_pre ->
  length gs = length ss ->
  for_each (seq (length res_pre) (length gs)) (mark_green (guess_pre ++ gs))
    (res_pre ++ replicate (length gs) (chr "b"), sc_pre ++ (Some <$> ss))
  = Ok (res_pre ++ greens gs ss, sc_pre ++ leftover gs ss).
Proof.
  revert ss guess_pre res_pre sc_pre.
  induction gs as [|g gs IH]; intros [|s ss] gp rp sp Hg Hs Hl; try done.
  simpl in Hl. injection Hl as Hl.
  cbn [length seq replicate fmap list_fmap].
  rewrite for_each_cons, mark_green_at, bind_Ok by done.
  unfold greens, leftover. cbn [zip_with]. fold (greens gs ss) (leftover gs ss).
  set (r := if decide (g = s) then chr "g" else chr "b").
  set (o := if decide (g = s) then None else Some s).
  rewrite (snoc_app gp g gs), (snoc_app rp r (replicate _ _)),
    (snoc_app rp r (greens _ _)), (snoc_app sp o (_ <$> _)),
    (snoc_app sp o (leftover _ _)).
  replace (S (length rp)) with (length (rp ++ [r]))
    by (rewrite length_app; simpl; lia).
  apply IH; rewrite ?length_app; simpl; lia.
Qed.

Lemma index_consume (c : char) (sc : list (option char)) :
  Some c ∈ sc ->
  exists j, index sc (Some c) = Ok j /\ j < length sc /\ sc !! j = Some (Some c)
            /\ consume c sc = <[j:=None]> sc.
Proof.
  intros Hin. unfold index, consume.
  destruct (list_find (fun y => y = Some c) sc) as [[j y]|] eqn:E.
  - apply list_find_Some in E as (Hj & -> & _).
    exists j. split_and!; try done. by eapply lookup_lt_Some.
  - apply list_find_None in E. rewrite Forall_forall in E.
    by destruct (E _ Hin).
Qed.

Lemma mark_yellow_at (gp : str) (g : char) (gs rp : str) (r : char) (rs : str)
    (sc : list (option char)) (k : nat) :
  k = length gp -> k = length rp ->
  mark_yellow (gp ++ g :: gs) k (rp ++ r :: rs, sc)
  = Ok (if decide (r = chr "g") then (rp ++ r :: rs, sc)
        else if decide (Some g ∈ sc) then (rp ++ chr "y" :: rs, consume g sc)
        else (rp ++ r :: rs, sc)).
Proof.
  intros Hg Hr. unfold mark_yellow.
  rewrite (getitem_middle rp), bind_Ok by done.
  destruct (decide (r = chr "g")); [done|].
  rewrite (getitem_middle gp), bind_Ok by done.
  destruct (decide (Some g ∈ sc)) as [Hin|]; [|done].
  rewrite (setitem_middle rp), bind_Ok by done.
  destruct (index_consume g sc Hin) as (j & -> & Hlt & _ & ->).
  rewrite bind_Ok. unfold setitem. by rewrite decide_True.
Qed.

Lemma mark_yellow_loop (gs rs gp rp : str) (sc : list (option char)) :
  length gp = length rp ->
  length gs = length rs ->
  for_each (seq (length rp) (length gs)) (mark_yellow (gp ++ gs)) (rp ++ rs, sc)
  = Ok (rp ++ (yellows (zip rs gs) sc).1, (yellows (zip rs gs) sc).2).
Proof.
  revert rs gp rp sc.
  induction gs as [|g gs IH]; intros [|r rs] gp rp sc Hg Hl; try done.
  simpl in Hl. injection Hl as Hl.
  cbn [length seq zip zip_with yellows].
  rewrite for_each_cons, mark_yellow_at, bind_Ok by done.
  destruct (decide (r = chr "g")) as [Hr|Hr];
    [|destruct (decide (Some g ∈ sc)) as [Hin|Hin]].
  - specialize (IH rs (gp ++ [g]) (rp ++ [r]) sc).
    destruct (yellows (zip rs gs) sc) as [out sc'] eqn:E. simpl in *.
    rewrite (snoc_app gp g gs), (snoc_app rp r rs), (snoc_app rp r out).
    replace (S (length rp)) with (length (rp ++ [r]))
      by (rewrite length_app; simpl; lia).
    apply IH; rewrite ?length_app; simpl; lia.
  - specialize (IH rs (gp ++ [g]) (rp ++ [chr "y"]) (consume g sc)).
    destruct (yellows (zip rs gs) (consume g sc)) as [out sc'] eqn:E. simpl in *.
    rewrite (snoc_app gp g gs), (snoc_app rp _ rs), (snoc_app rp _ out).
    replace (S (length rp)) with (length (rp ++ [chr "y"]))
      by (rewrite length_app; simpl; lia).
    apply IH; rewrite ?length_app; simpl; lia.
  - specialize (IH rs (gp ++ [g]) (rp ++ [r]) sc).
    destruct (yellows (zip rs gs) sc) as [out sc'] eqn:E. simpl in *.
    rewrite (snoc_app gp g gs), (snoc_app rp r rs), (snoc_app rp r out).
    replace (S (length rp)) with (length (rp ++ [r]))
      by (rewrite length_app; simpl; lia).
    apply IH; rewrite ?length_app; simpl; lia.
Qed.

Section Scoring.
Context `{Builtins}.

(** On words of the right length the scorer returns, and its result is the
    closed form of its two loops. *)
Lemma score_guess_closed (secret guess : str) :
  scorable secret -> scorable guess ->
  score_guess secret guess
  = Ok (yellows (zip (greens (lower guess) (lower secret)) (lower guess))
                (leftover (lower guess) (lower secret))).1.
Proof.
  unfold scorable, score_guess. intros Hs Hg.
  rewrite decide_True by (split; congruence).
  assert (Hgs : length (lower guess) = length (lower secret)) by congruence.
  unfold range. rewrite <- Hg at 1 2.
  pose proof (mark_green_loop (lower guess) (lower secret) [] [] [] eq_refl eq_refl Hgs)
    as H1.
  cbn [length app] in H1. rewrite H1, bind_Ok. clear H1.
  assert (Hl : length (lower guess) = length (greens (lower guess) (lower secret))).
  { unfold greens. rewrite length_zip_with. lia. }
  rewrite <- Hg.
  pose proof (mark_yellow_loop (lower guess) (greens (lower guess) (lower secret))
                [] [] (leftover (lower guess) (lower secret)) eq_refl Hl) as H2.
  cbn [length app] in H2. by rewrite H2, bind_Ok.
Qed.

(** A word of the data model, five characters and its own lower-casing, is
    one of them. *)
Lemma word_scorable (w : str) : length w = 5 -> lower w = w -> scorable w.
Proof. unfold scorable. by intros ? ->. Qed.

(** Otherwise the assertion fails. *)
Lemma score_guess_raises (secret guess : str) :
  ~ (scorable secret /\ scorable guess) ->
  score_guess secret guess = Raise AssertionError.
Proof.
  unfold scorable, score_guess. intros Hn.
  rewrite decide_False; [done|]. intros [H1 H2]. apply Hn. split; congruence.
Qed.

End Scoring.

(** ** The two-pass rule of the specification *)

Lemma greens_code (secret guess : str) :
  greens guess secret = symbol_code <$> spec_pass1_pattern secret guess.
Proof.
  unfold greens, spec_pass1_pattern. revert secret.
  induction guess as [|g guess IH]; intros [|s secret]; try done.
  cbn [zip_with fmap list_fmap]. fold (@fmap list _ _ _ symbol_code).
  rewrite IH. by destruct (decide (g = s)).
Qed.

Lemma leftover_mask (secret guess : str) :
  leftover guess secret = mask secret (spec_pass1_consumed secret guess).
Proof.
  unfold leftover, mask, spec_pass1_consumed. revert secret.
  induction guess as [|g guess IH]; intros [|s secret]; try done.
  cbn [zip_with]. rewrite IH. f_equal.
  destruct (decide (g = s)); [by rewrite bool_decide_eq_true_2|
                              by rewrite bool_decide_eq_false_2].
Qed.

Lemma find_mask (secret : str) (consumed : list bool) (c : char) :
  list_find (fun y => y = Some c) (mask secret consumed)
  = prod_map id (uncurry (fun s used => if used : bool then None else Some s))
      <$> list_find (fun su => su.1 = c /\ su.2 = false) (zip secret consumed).
Proof.
  unfold mask. rewrite zip_with_zip, list_find_fmap.
  erewrite list_find_ext; [reflexivity|].
  intros [s [|]]; simpl; split; try done.
  - by intros [_ ?].
  - by intros [= ->].
  - by intros [-> _].
Qed.

Lemma consume_mask (secret : str) (consumed : list bool) (c : char) :
  match first_unconsumed secret consumed c with
  | Some j =>
      Some c ∈ mask secret consumed
      /\ consume c (mask secret consumed) = mask secret (<[j:=true]> consumed)
  | None => Some c ∉ mask secret consumed
  end.
Proof.
  unfold first_unconsumed, consume. rewrite find_mask.
  destruct (list_find _ (zip secret consumed)) as [[j [s u]]|] eqn:E; simpl.
  - apply list_find_Some in E as (Hj & [Hs Hu] & _). simpl in *. subst.
    apply lookup_zip_with_Some in Hj as (s & u & [= <- <-] & Hs & Hu).
    split.
    + apply list_elem_of_lookup. exists j. unfold mask.
      rewrite lookup_zip_with, Hs, Hu. done.
    + unfold mask.
      change (@None char) with ((fun s used => if used : bool then None else Some s) c true).
      rewrite insert_zip_with. by rewrite (list_insert_id secret).
  - intros Hin. apply list_find_None in E. rewrite Forall_forall in E.
    apply list_elem_of_lookup in Hin as [j Hj]. unfold mask in Hj.
    apply lookup_zip_with_Some in Hj as (s & u & Hsu & Hs & Hu).
    apply (E (s, u)).
    + apply list_elem_of_lookup. exists j.
      by rewrite lookup_zip_with, Hs, Hu.
    + destruct u; simplify_eq. done.
Qed.

Lemma yellows_spec (secret : str) (todo : list (symbol * char))
    (consumed : list bool) :
  Forall (fun sc => sc.1 <> Yellow) todo ->
  (yellows (prod_map symbol_code id <$> todo) (mask secret consumed)).1
  = symbol_code <$> spec_pass2 secret todo consumed.
Proof.
  intros Htodo. revert consumed.
  induction Htodo as [|[sym c] todo Hsym _ IH]; intros consumed; [done|].
  cbn [fmap list_fmap prod_map fst snd id yellows spec_pass2].
  fold (@fmap list _ _ _ (prod_map symbol_code (@id char))).
  destruct sym; [| by destruct Hsym |].
  - rewrite decide_True by done. specialize (IH consumed).
    destruct (yellows _ (mask secret consumed)) as [out sc]. simpl in *.
    by rewrite IH.
  - rewrite decide_False by done.
    pose proof (consume_mask secret consumed c) as Hc.
    destruct (first_unconsumed secret consumed c) as [j|].
    + destruct Hc as [Hin ->]. rewrite decide_True by done.
      specialize (IH (<[j:=true]> consumed)).
      destruct (yellows _ (mask secret (<[j:=true]> consumed))) as [out sc].
      simpl in *. by rewrite IH.
    + rewrite decide_False by done. specialize (IH consumed).
      destruct (yellows _ (mask secret consumed)) as [out sc]. simpl in *.
      by rewrite IH.
Qed.

Lemma zip_code (pat : list symbol) (guess : str) :
  zip (symbol_code <$> pat) guess = prod_map symbol_code id <$> zip pat guess.
Proof.
  revert guess. induction pat as [|p pat IH]; intros [|g guess]; try done.
  cbn [fmap list_fmap zip zip_with prod_map fst snd id]. f_equal. apply IH.
Qed.

Lemma pass1_no_yellow (secret guess : str) :
  Forall (fun sc : symbol * char => sc.1 <> Yellow)
         (zip (spec_pass1_pattern secret guess) guess).
Proof.
  unfold spec_pass1_pattern. revert secret.
  induction guess as [|g guess IH]; intros [|s secret]; try by constructor.
  cbn [zip_with zip]. constructor; [|apply IH].
  simpl. by destruct (decide (g = s)).
Qed.

Lemma closed_form_spec (secret guess : str) :
  (yellows (zip (greens guess secret) guess) (leftover guess secret)).1
  = symbol_code <$> spec_score secret guess.
Proof.
  rewrite greens_code, leftover_mask, zip_code. unfold spec_score.
  apply yellows_spec, pass1_no_yellow.
Qed.

Lemma greens_same (w : str) : greens w w = replicate (length w) (chr "g").
Proof.
  unfold greens. induction w as [|c w IH]; [done|].
  cbn [zip_with length replicate]. by rewrite decide_True, IH.
Qed.

Lemma yellows_all_green (todo : list (char * char)) (sc : list (option char)) :
  Forall (fun rg => rg.1 = chr "g") todo -> (yellows todo sc).1 = todo.*1.
Proof.
  induction 1 as [|[r g] todo Hr _ IH]; [done|]. simpl in Hr.
  cbn [yellows fmap list_fmap fst]. rewrite decide_True by done.
  destruct (yellows todo sc) as [out sc']. simpl in *. by rewrite IH.
Qed.

Section ScoringTheorems.
Context `{Builtins}.

(** C1: on two words of five letters the scorer returns the pattern of the
    two-pass rule of the specification (applied to the lower-cased words,
    which for lowercase words are the words themselves): pass 1 makes green,
    and consumes, exactly the positions where guess and secret agree; pass 2
    then visits the other positions from left to right, turning a position
    yellow and consuming the leftmost unconsumed occurrence of its letter in
    the secret when there is one, and leaving it grey otherwise. *)
Theorem score_guess_two_pass (secret guess : str) :
  scorable secret -> scorable guess ->
  score_guess secret guess
    = Ok (symbol_code <$> spec_score (lower secret) (lower guess))
  /\ (lower secret = secret -> lower guess = guess ->
      score_guess secret guess = Ok (symbol_code <$> spec_score secret guess)).
Proof.
  intros Hs Hg.
  assert (score_guess secret guess
          = Ok (symbol_code <$> spec_score (lower secret) (lower guess))) as E
    by (rewrite score_guess_closed by done; f_equal; apply closed_form_spec).
  split; [done|]. intros Es Eg. by rewrite E, Es, Eg.
Qed.

(** C5: scoring a five-letter word against itself gives the all-green
    pattern. *)
Theorem score_guess_self (w : str) :
  scorable w -> score_guess w w = Ok (lit "ggggg").
Proof.
  intros Hw. rewrite score_guess_closed by done. f_equal.
  rewrite greens_same, yellows_all_green.
  - rewrite fst_zip by (rewrite length_replicate; lia).
    unfold scorable in Hw. by rewrite Hw.
  - apply Forall_forall. intros [r g] Hin. simpl.
    apply elem_of_zip_l in Hin. simpl in Hin.
    by apply elem_of_replicate in Hin as [-> _].
Qed.

End ScoringTheorems.

Lemma score_guess_two_pass_witness :
  @scorable ascii_builtins (lit "allow") /\ @scorable ascii_builtins (lit "lolly")
  /\ @score_guess ascii_builtins (lit "allow") (lit "lolly")
     = Ok (symbol_code <$> [Yellow; Yellow; Green; Grey; Grey]).
Proof.
  split; [reflexivity|]. split; [reflexivity|].
  apply (@score_guess_two_pass ascii_builtins (lit "allow") (lit "lolly"));
    reflexivity.
Defined.

Lemma score_guess_self_witness :
  @scorable ascii_builtins (lit "Crane")
  /\ @score_guess ascii_builtins (lit "Crane") (lit "Crane") = Ok (lit "ggggg").
Proof.
  split; [reflexivity|].
  apply (@score_guess_self ascii_builtins (lit "Crane")). reflexivity.
Defined.

(** ** Counting letters *)

Lemma chr_g_b : chr "g" <> chr "b".
Proof. discriminate. Qed.

Lemma chr_y_b : chr "y" <> chr "b".
Proof. discriminate. Qed.

Lemma count_cons {A} `{EqDecision A} (c x : A) (l : list A) :
  count c (x :: l) = (if decide (x = c) then 1 else 0) + count c l.
Proof. unfold count. rewrite filter_cons. by destruct (decide (x = c)). Qed.

Lemma length_filter_cons {A} (P : A -> Prop) `{forall x, Decision (P x)}
    (x : A) (l : list A) :
  length (filter P (x :: l))
  = (if decide (P x) then 1 else 0) + length (filter P l).
Proof. rewrite filter_cons. by destruct (decide (P x)). Qed.

Lemma count_app {A} `{EqDecision A} (c : A) (l k : list A) :
  count c (l ++ k) = count c l + count c k.
Proof. unfold count. by rewrite filter_app, length_app. Qed.

Lemma count_insert {A} `{EqDecision A} (c y z : A) (l : list A) (j : nat) :
  l !! j = Some y ->
  count c (<[j:=z]> l) + (if decide (y = c) then 1 else 0)
  = count c l + (if decide (z = c) then 1 else 0).
Proof.
  intros Hj. rewrite insert_take_drop by (by eapply lookup_lt_Some).
  rewrite <- (take_drop_middle l j y Hj) at 3.
  rewrite !count_app, !count_cons. lia.
Qed.

Lemma count_pos {A} `{EqDecision A} (c : A) (l : list A) :
  c ∈ l <-> 0 < count c l.
Proof.
  induction l as [|x l IH]; [rewrite elem_of_nil; cbn; lia|].
  rewrite elem_of_cons, count_cons, IH.
  destruct (decide (x = c)); [split; [lia|by left]|].
  split; [intros [?|?]; [congruence|lia] | intros; right; lia].
Qed.

Lemma count_consume (c g : char) (sc : list (option char)) :
  Some g ∈ sc ->
  count (Some c) (consume g sc) + (if decide (g = c) then 1 else 0)
  = count (Some c) sc.
Proof.
  intros Hin. destruct (index_consume g sc Hin) as (j & _ & _ & Hj & ->).
  pose proof (count_insert (Some c) (Some g) None sc j Hj) as E.
  rewrite (decide_False (P := None = Some c)) in E by done.
  destruct (decide (g = c)) as [->|Hne].
  - rewrite decide_True in E by done. lia.
  - rewrite decide_False in E by congruence. lia.
Qed.

Lemma yellows_length (todo : list (char * char)) (sc : list (option char)) :
  length (yellows todo sc).1 = length todo.
Proof.
  revert sc. induction todo as [|[r g] todo IH]; intros sc; [done|].
  cbn [yellows].
  destruct (decide (r = chr "g")); [|destruct (decide (Some g ∈ sc))].
  - specialize (IH sc). destruct (yellows todo sc). simpl in *. lia.
  - specialize (IH (consume g sc)). destruct (yellows todo _). simpl in *. lia.
  - specialize (IH sc). destruct (yellows todo sc). simpl in *. lia.
Qed.

(** The second loop, letter by letter: the letter [c] ends non-grey at its
    green positions and at as many of its grey positions as [secret_chars]
    still has occurrences of [c]. *)
Lemma yellows_count (c : char) (todo : list (char * char))
    (sc : list (option char)) :
  Forall (fun rg => rg.1 = chr "g" \/ rg.1 = chr "b") todo ->
  length (filter (fun rg => rg.1 <> chr "b" /\ rg.2 = c)
                 (zip (yellows todo sc).1 todo.*2))
  = length (filter (fun rg => rg.1 = chr "g" /\ rg.2 = c) todo)
    + count (Some c) sc
        `min` length (filter (fun rg => rg.1 = chr "b" /\ rg.2 = c) todo).
Proof.
  intros Htodo. revert sc.
  induction Htodo as [|[r g] todo Hr _ IH]; intros sc; [cbn; lia|].
  cbn [fst] in Hr. cbn [yellows fmap list_fmap snd].
  fold (@fmap list _ _ _ (@snd char char)).
  rewrite !(length_filter_cons _ (r, g)). cbn [fst snd].
  pose proof chr_g_b as Hgb. pose proof chr_y_b as Hyb.
  destruct (decide (r = chr "g")) as [->|Hr'];
    [|destruct (decide (Some g ∈ sc)) as [Hin|Hin]].
  - specialize (IH sc).
    destruct (yellows todo sc) as [out sc']. cbn [fst zip zip_with] in *.
    rewrite length_filter_cons. cbn [fst snd].
    repeat case_decide; try lia; exfalso; naive_solver.
  - destruct Hr as [->| ->]; [done|].
    specialize (IH (consume g sc)). pose proof (count_consume c g sc Hin) as Ec.
    destruct (yellows todo (consume g sc)) as [out sc']. cbn [fst zip zip_with] in *.
    rewrite length_filter_cons. cbn [fst snd].
    repeat case_decide; try lia; exfalso; naive_solver.
  - destruct Hr as [->| ->]; [done|].
    specialize (IH sc).
    assert (g = c -> count (Some c) sc = 0) as Ez.
    { intros ->. destruct (count_pos (Some c) sc) as [_ Hp].
      destruct (count (Some c) sc); [done|]. destruct Hin. apply Hp. lia. }
    destruct (yellows todo sc) as [out sc']. cbn [fst zip zip_with] in *.
    rewrite length_filter_cons. cbn [fst snd].
    destruct (decide (g = c)) as [Egc|Egc].
    + rewrite Ez in IH by done.
      repeat case_decide; try lia; exfalso; naive_solver.
    + repeat case_decide; try lia; exfalso; naive_solver.
Qed.

Lemma greens_shape (guess secret : str) :
  Forall (fun rg : char * char => rg.1 = chr "g" \/ rg.1 = chr "b")
         (zip (greens guess secret) guess).
Proof.
  unfold greens. revert secret.
  induction guess as [|g guess IH]; intros [|s secret]; try by constructor.
  cbn [zip_with zip]. constructor; [|apply IH].
  cbn [fst]. destruct (decide (g = s)); auto.
Qed.

(** The first loop, letter by letter. *)
Lemma greens_count (c : char) (guess secret : str) :
  length guess = length secret ->
  length (filter (fun rg => rg.1 = chr "g" /\ rg.2 = c)
                 (zip (greens guess secret) guess))
  + length (filter (fun rg => rg.1 = chr "b" /\ rg.2 = c)
                   (zip (greens guess secret) guess))
  = count c guess
  /\ length (filter (fun rg => rg.1 = chr "g" /\ rg.2 = c)
                    (zip (greens guess secret) guess))
     + count (Some c) (leftover guess secret)
     = count c secret.
Proof.
  unfold greens, leftover. revert secret.
  induction guess as [|g guess IH]; intros [|s secret] Hl; try done.
  injection Hl as Hl. destruct (IH secret Hl) as [IH1 IH2].
  cbn [zip_with zip]. rewrite !length_filter_cons, !count_cons. cbn [fst snd].
  pose proof chr_g_b as Hgb.
  destruct (decide (g = s)) as [->|Hne];
    repeat case_decide; simplify_eq; try lia; exfalso; naive_solver.
Qed.

Lemma length_filter_zip_fst {A B} (P : A -> Prop) `{forall x, Decision (P x)}
    (l : list A) (k : list B) :
  length l <= length k ->
  length (filter (fun xy => P xy.1) (zip l k)) = length (filter P l).
Proof.
  revert k. induction l as [|x l IH]; intros [|y k] Hl; simpl in Hl;
    try done; try lia.
  cbn [zip zip_with]. rewrite !length_filter_cons. cbn [fst].
  rewrite IH by lia. done.
Qed.

Lemma count_filter_snd {A B} `{EqDecision B} (P : A * B -> Prop)
    `{forall x, Decision (P x)} (c : B) (l : list (A * B)) :
  count c (filter P l).*2 = length (filter (fun xy => P xy /\ xy.2 = c) l).
Proof.
  induction l as [|[x y] l IH]; [done|].
  rewrite length_filter_cons, filter_cons. cbn [snd].
  destruct (decide (P (x, y))) as [HP|HP].
  - cbn [fmap list_fmap snd]. rewrite count_cons, IH.
    destruct (decide (y = c)) as [Hy|Hy].
    + by rewrite decide_True.
    + by rewrite decide_False by (by intros [_ ?]).
  - rewrite IH. rewrite decide_False by (by intros [? _]). done.
Qed.

Lemma length_filter_split {A} (P : A -> Prop) `{forall x, Decision (P x)}
    (l : list A) :
  length l = length (filter P l) + length (filter (fun x => ~ P x) l).
Proof.
  induction l as [|x l IH]; [done|].
  rewrite !length_filter_cons. cbn [length].
  repeat case_decide; try lia; done.
Qed.

Lemma count_filter_ne {A} `{EqDecision A} (c d : A) (l : list A) :
  c <> d -> count c (filter (fun x => ~ x = d) l) = count c l.
Proof.
  intros Hne. induction l as [|x l IH]; [done|].
  rewrite filter_cons, count_cons.
  destruct (decide (x <> d)) as [Hx|Hx].
  - by rewrite count_cons, IH.
  - rewrite IH. rewrite decide_False; [done|].
    intros ->. by apply Hx.
Qed.

(** A list is as long as the occurrences of its distinct elements. *)
Lemma length_sum_count {A} `{EqDecision A} (D l : list A) :
  NoDup D -> (forall x, x ∈ l -> x ∈ D) ->
  length l = sum_list ((fun c => count c l) <$> D).
Proof.
  intros HD. revert l. induction HD as [|d D Hd HD IH]; intros l Hl.
  - destruct l as [|x l]; [done|].
    specialize (Hl x). rewrite elem_of_nil in Hl. destruct Hl. by left.
  - cbn [fmap list_fmap sum_list]. fold (@fmap list _ _ _ (fun c => count c l)).
    rewrite (length_filter_split (fun x => x = d) l). f_equal.
    rewrite (IH (filter (fun x => ~ x = d) l)).
    + f_equal. apply list_fmap_ext. intros i c Hc.
      apply count_filter_ne. intros ->.
      apply Hd. by eapply list_elem_of_lookup_2.
    + intros x [Hx Hxl]%list_elem_of_filter.
      specialize (Hl x Hxl). apply elem_of_cons in Hl as [?|?]; done.
Qed.

(** The closed form, letter by letter. *)
Lemma closed_form_letter (c : char) (secret guess : str) :
  length guess = length secret ->
  non_grey_of c
    (yellows (zip (greens guess secret) guess) (leftover guess secret)).1 guess
  = count c secret `min` count c guess.
Proof.
  intros Hl. unfold non_grey_of.
  assert (length guess <= length (greens guess secret)) as Hle
    by (unfold greens; rewrite length_zip_with; lia).
  pose proof (yellows_count c (zip (greens guess secret) guess)
                (leftover guess secret) (greens_shape guess secret)) as E.
  rewrite snd_zip in E by done. rewrite E.
  destruct (greens_count c guess secret Hl) as [E1 E2]. lia.
Qed.

Lemma closed_form_total (secret guess : str) :
  length guess = length secret ->
  non_grey (yellows (zip (greens guess secret) guess) (leftover guess secret)).1
  = shared_letters secret guess.
Proof.
  intros Hl. unfold non_grey, shared_letters.
  set (p := (yellows (zip (greens guess secret) guess) (leftover guess secret)).1).
  assert (length p = length guess) as Hp.
  { unfold p, greens. rewrite yellows_length, !length_zip_with. lia. }
  set (L := (filter (fun rg : char * char => rg.1 <> chr "b") (zip p guess)).*2).
  assert (forall c, count c L = count c secret `min` count c guess) as HL.
  { intros c. unfold L. rewrite count_filter_snd.
    by rewrite <- (closed_form_letter c secret guess Hl). }
  transitivity (length L).
  - unfold L. rewrite length_fmap.
    symmetry.
    exact (length_filter_zip_fst (fun r => r <> chr "b") p guess ltac:(lia)).
  - rewrite (length_sum_count (remove_dups secret) L).
    + f_equal. apply list_fmap_ext. intros _ c _. apply HL.
    + apply NoDup_remove_dups.
    + intros x Hx. apply elem_of_remove_dups.
      apply count_pos in Hx. rewrite HL in Hx. apply count_pos. lia.
Qed.

Section LetterTheorems.
Context `{Builtins}.

(** C4: the pattern of two five-letter words has as many non-grey symbols as
    the two words (lower-cased, as the scorer reads them) share letters,
    counted with multiplicity: the sum over the letters of the smaller of the
    two multiplicities ([shared_letters]); and for each letter [c], the
    number of non-grey symbols on the positions where the guess has [c] is
    that smaller multiplicity, so it never exceeds it. *)
Theorem score_guess_shared_letters (secret guess : str) :
  scorable secret -> scorable guess ->
  exists p,
    score_guess secret guess = Ok p
    /\ non_grey p = shared_letters (lower secret) (lower guess)
    /\ forall c,
         non_grey_of c p (lower guess)
         = count c (lower secret) `min` count c (lower guess)
         /\ non_grey_of c p (lower guess)
            <= count c (lower secret) `min` count c (lower guess).
Proof.
  intros Hs Hg. eexists. split; [by apply score_guess_closed|].
  assert (length (lower guess) = length (lower secret)) as Hl
    by (unfold scorable in *; congruence).
  split; [by apply closed_form_total|].
  intros c. rewrite closed_form_letter by done. split; [done|lia].
Qed.

End LetterTheorems.

Lemma score_guess_shared_letters_witness :
  @scorable ascii_builtins (lit "allow") /\ @scorable ascii_builtins (lit "lolly")
  /\ exists p,
       @score_guess ascii_builtins (lit "allow") (lit "lolly") = Ok p
       /\ non_grey p = 3.
Proof.
  split; [reflexivity|]. split; [reflexivity|].
  destruct (@score_guess_shared_letters ascii_builtins (lit "allow") (lit "lolly")
              eq_refl eq_refl) as (p & Hp & Hn & _).
  exists p. split; [exact Hp|]. rewrite Hn. reflexivity.
Defined.

(** ** The consistency check and the filter *)

Section Filtering.
Context `{Builtins}.

Lemma score_guess_total (c g : str) :
  scorable c -> scorable g -> exists p, score_guess c g = Ok p.
Proof. intros Hc Hg. eexists. by apply score_guess_closed. Qed.

(** The only exception of the scorer is the failed assertion. *)
Lemma score_guess_exn (c g : str) (e : exn) :
  score_guess c g = Raise e -> e = AssertionError /\ ~ (scorable c /\ scorable g).
Proof.
  intros E. destruct (decide (scorable c /\ scorable g)) as [[Hc Hg]|Hn].
  - destruct (score_guess_total c g Hc Hg) as [p Hp]. congruence.
  - rewrite score_guess_raises in E by done. by injection E as <-.
Qed.

Lemma word_matches_history_cons (c g p : str) (hist : list (str * str)) :
  word_matches_history c ((g, p) :: hist)
  = q ← score_guess c g;
    if decide (q <> p) then Ok false else word_matches_history c hist.
Proof. reflexivity. Qed.

Lemma word_matches_history_app (c : str) (h1 h2 : list (str * str)) :
  word_matches_history c (h1 ++ h2)
  = b ← word_matches_history c h1;
    if b : bool then word_matches_history c h2 else Ok false.
Proof.
  induction h1 as [|[g p] h1 IH]; [done|].
  rewrite <- app_comm_cons, !word_matches_history_cons.
  destruct (score_guess c g) as [q|e]; [|done]. rewrite !bind_Ok.
  by destruct (decide (q <> p)).
Qed.

Lemma word_matches_history_exn (c : str) (hist : list (str * str)) (e : exn) :
  word_matches_history c hist = Raise e -> e = AssertionError.
Proof.
  induction hist as [|[g p] hist IH]; [done|].
  rewrite word_matches_history_cons.
  destruct (score_guess c g) as [q|e'] eqn:E.
  - rewrite bind_Ok. destruct (decide (q <> p)); [done|apply IH].
  - intros [= <-]. by apply score_guess_exn in E as [-> _].
Qed.

(** On well-shaped words the check returns, and it is the conjunction of
    the specification. *)
Lemma word_matches_history_consistent (c : str) (hist : list (str * str)) :
  scorable c -> Forall (fun r => scorable r.1) hist ->
  word_matches_history c hist = Ok (consistent hist c).
Proof.
  intros Hc. induction 1 as [|[g p] hist Hg _ IH]; [done|].
  rewrite word_matches_history_cons. cbn [fst] in Hg.
  destruct (score_guess_total c g Hc Hg) as [q Hq]. rewrite Hq, bind_Ok.
  unfold consistent, reproduces. cbn [forallb fst snd]. rewrite Hq.
  destruct (decide (q <> p)) as [Hne|Heq].
  - by rewrite bool_decide_eq_false_2 by congruence.
  - apply dec_stable in Heq as ->. by rewrite bool_decide_eq_true_2.
Qed.

Lemma filter_candidates_cons (w : str) (ws : list str) (hist : list (str * str)) :
  filter_candidates (w :: ws) hist
  = keep ← word_matches_history w hist;
    rest ← filter_candidates ws hist;
    Ok (if keep : bool then w :: rest else rest).
Proof. reflexivity. Qed.

Lemma filter_candidates_exn (ws : list str) (hist : list (str * str)) (e : exn) :
  filter_candidates ws hist = Raise e -> e = AssertionError.
Proof.
  induction ws as [|w ws IH]; [done|]. rewrite filter_candidates_cons.
  destruct (word_matches_history w hist) as [b|e'] eqn:E.
  - rewrite bind_Ok. destruct (filter_candidates ws hist); [done|].
    intros [= <-]. by apply IH.
  - intros [= <-]. by eapply word_matches_history_exn.
Qed.

(** One word on which the check raises makes the whole filter raise. *)
Lemma filter_candidates_raises (ws : list str) (hist : list (str * str))
    (w : str) (e : exn) :
  w ∈ ws -> word_matches_history w hist = Raise e ->
  filter_candidates ws hist = Raise AssertionError.
Proof.
  intros Hin Hw.
  destruct (filter_candidates ws hist) as [l|e'] eqn:E;
    [|by rewrite (filter_candidates_exn ws hist e' E)].
  exfalso. revert l E. induction Hin as [w ws|w v ws _ IH]; intros l.
  - by rewrite filter_candidates_cons, Hw.
  - rewrite filter_candidates_cons.
    destruct (word_matches_history v hist); [|done]. rewrite bind_Ok.
    destruct (filter_candidates ws hist) as [l'|]; [|done].
    intros _. by eapply IH.
Qed.

Lemma filter_candidates_consistent (ws : list str) (hist : list (str * str)) :
  Forall scorable ws -> Forall (fun r => scorable r.1) hist ->
  filter_candidates ws hist = Ok (List.filter (consistent hist) ws).
Proof.
  intros Hws Hh. induction Hws as [|w ws Hw _ IH]; [done|].
  rewrite filter_candidates_cons, word_matches_history_consistent by done.
  rewrite bind_Ok, IH, bind_Ok. cbn [List.filter].
  by destruct (consistent hist w).
Qed.

Lemma filter_candidates_nil (ws : list str) : filter_candidates ws [] = Ok ws.
Proof.
  induction ws as [|w ws IH]; [done|].
  by rewrite filter_candidates_cons, IH.
Qed.

Lemma filter_candidates_fixed (ws l : list str) (hist : list (str * str)) :
  filter_candidates ws hist = Ok l -> filter_candidates l hist = Ok l.
Proof.
  revert l. induction ws as [|w ws IH]; intros l; [by intros [= <-]|].
  rewrite filter_candidates_cons.
  destruct (word_matches_history w hist) as [b|] eqn:Ew; [|done].
  rewrite bind_Ok.
  destruct (filter_candidates ws hist) as [rest|]; [|done].
  rewrite bind_Ok. intros [= <-]. specialize (IH rest eq_refl).
  destruct b; [|done].
  by rewrite filter_candidates_cons, Ew, bind_Ok, IH.
Qed.

Lemma filter_candidates_shrinks (ws l2 : list str) (h1 h2 : list (str * str)) :
  filter_candidates ws (h1 ++ h2) = Ok l2 ->
  exists l1, filter_candidates ws h1 = Ok l1 /\ l2 `sublist_of` l1.
Proof.
  revert l2. induction ws as [|w ws IH]; intros l2.
  - intros [= <-]. by exists [].
  - rewrite !filter_candidates_cons, word_matches_history_app.
    destruct (word_matches_history w h1) as [b1|]; [|done]. rewrite !bind_Ok.
    destruct (filter_candidates ws (h1 ++ h2)) as [rest2|]; [|by destruct b1, (word_matches_history w h2)].
    destruct (IH rest2 eq_refl) as (rest1 & -> & Hsub). rewrite bind_Ok.
    destruct b1.
    + destruct (word_matches_history w h2) as [b2|]; [|done].
      rewrite !bind_Ok. intros [= <-]. eexists; split; [done|].
      destruct b2; [by apply sublist_skip|by apply sublist_cons].
    + rewrite !bind_Ok. intros [= <-]. by eexists.
Qed.

End Filtering.

Section FilterTheorems.
Context `{Builtins}.

(** C2: on a vocabulary and a history of five-letter words, the filter
    returns the words of the vocabulary, in the vocabulary's order, that
    reproduce the pattern of every record ([score_guess c g = Ok p] for every
    record [(g, p)]); with an empty history it returns the whole vocabulary,
    whatever it holds. *)
Theorem filter_candidates_spec (ws : list str) (hist : list (str * str)) :
  (Forall scorable ws -> Forall (fun r => scorable r.1) hist ->
   filter_candidates ws hist = Ok (List.filter (consistent hist) ws))
  /\ filter_candidates ws [] = Ok ws.
Proof.
  split; [apply filter_candidates_consistent|apply filter_candidates_nil].
Qed.

(** C6: filtering the output of the filter again, with the same history,
    gives the same output (and the same exception, if the first filtering
    raised). *)
Theorem filter_candidates_idempotent (ws : list str) (hist : list (str * str)) :
  (l ← filter_candidates ws hist; filter_candidates l hist)
  = filter_candidates ws hist.
Proof.
  destruct (filter_candidates ws hist) as [l|e] eqn:E; [|done].
  rewrite bind_Ok. by eapply filter_candidates_fixed.
Qed.

(** C7: with one more record in the history, whatever the filter returns is
    a sub-sequence of what it returned before, so no candidate is new and the
    count does not grow; and on five-letter words both filterings return. *)
Theorem filter_candidates_monotone (ws : list str) (hist : list (str * str))
    (r : str * str) :
  (forall l2, filter_candidates ws (hist ++ [r]) = Ok l2 ->
     exists l1, filter_candidates ws hist = Ok l1
       /\ l2 `sublist_of` l1
       /\ (forall w, w ∈ l2 -> w ∈ l1)
       /\ length l2 <= length l1)
  /\ (Forall scorable ws -> Forall (fun r => scorable r.1) (hist ++ [r]) ->
      exists l1 l2, filter_candidates ws hist = Ok l1
        /\ filter_candidates ws (hist ++ [r]) = Ok l2).
Proof.
  split.
  - intros l2 E. destruct (filter_candidates_shrinks _ _ _ _ E) as (l1 & E1 & Hsub).
    exists l1. split_and!; [done..| |by apply sublist_length].
    intros w Hw. by eapply elem_of_sublist.
  - intros Hws Hh. pose proof Hh as [Hh1 _]%Forall_app.
    rewrite !filter_candidates_consistent by done. by eexists _, _.
Qed.

End FilterTheorems.

Lemma filter_candidates_spec_witness :
  filter_candidates (H := ascii_builtins)
    [lit "crane"; lit "slate"; lit "trace"; lit "grape"]
    [(lit "slate", lit "bbgbg")]
  = Ok [lit "crane"; lit "grape"].
Proof.
  destruct (filter_candidates_spec (H := ascii_builtins)
              [lit "crane"; lit "slate"; lit "trace"; lit "grape"]
              [(lit "slate", lit "bbgbg")]) as [E _].
  rewrite E.
  - reflexivity.
  - repeat constructor.
  - repeat constructor.
Defined.

Lemma filter_candidates_monotone_witness :
  exists l1 l2,
    filter_candidates (H := ascii_builtins)
      [lit "crane"; lit "slate"; lit "trace"; lit "grape"]
      [(lit "slate", lit "bbgbg")] = Ok l1
    /\ filter_candidates (H := ascii_builtins)
         [lit "crane"; lit "slate"; lit "trace"; lit "grape"]
         ([(lit "slate", lit "bbgbg")] ++ [(lit "crane", lit "ggggg")]) = Ok l2
    /\ l2 `sublist_of` l1.
Proof.
  destruct (filter_candidates_monotone (H := ascii_builtins)
              [lit "crane"; lit "slate"; lit "trace"; lit "grape"]
              [(lit "slate", lit "bbgbg")] (lit "crane", lit "ggggg"))
    as [Hsub Htot].
  destruct Htot as (l1 & l2 & E1 & E2); [repeat constructor..|].
  exists l1, l2. split; [exact E1|]. split; [exact E2|].
  destruct (Hsub l2 E2) as (l1' & E1' & Hs & _).
  rewrite E1 in E1'. injection E1' as <-. exact Hs.
Defined.

(** ** The session *)

Section SessionTheorems.
Context `{Builtins}.

Lemma cli_turn_accepted (session session' : WordleSession)
    (guess_in pattern_in : str) (cands : result (list str)) :
  cli_turn session guess_in pattern_in = Accepted session' cands
  <-> word_shaped (normalise guess_in) = true
      /\ pattern_shaped (normalise pattern_in)
      /\ session' = add_guess session (normalise guess_in) (normalise pattern_in)
      /\ cands = get_candidates session'.
Proof.
  unfold cli_turn, word_shaped, pattern_shaped, normalise.
  set (w := lower (strip guess_in)). set (p := lower (strip pattern_in)).
  destruct (decide (w = [])) as [Hw|Hw].
  { split; [done|]. intros [Hs _]. rewrite Hw in Hs. done. }
  destruct (decide (length w = 5)) as [Hl|Hl].
  2:{ rewrite (bool_decide_eq_true_2 (length w <> 5)) by done.
      rewrite (bool_decide_eq_false_2 (length w = 5)) by done.
      split; [done|]. by intros [? _]. }
  rewrite (bool_decide_eq_false_2 (length w <> 5)) by (intros ?; done).
  rewrite (bool_decide_eq_true_2 (length w = 5)) by done. cbn [orb andb].
  destruct (isalpha w); cbn [negb]; [|split; [done|by intros [? _]]].
  destruct (decide (length p = 5)) as [Hp|Hp].
  2:{ rewrite (bool_decide_eq_true_2 (length p <> 5)) by done.
      split; [done|]. by intros (_ & [? _] & _). }
  rewrite (bool_decide_eq_false_2 (length p <> 5)) by (intros ?; done).
  cbn [orb].
  destruct (existsb _ p) eqn:Ex.
  - split; [done|]. intros (_ & [_ Hall] & _). exfalso.
    apply existsb_exists in Ex as (ch & Hin & Hch).
    apply bool_decide_eq_true_1 in Hch. apply Hch.
    rewrite Forall_forall in Hall. apply Hall. by apply list_elem_of_In.
  - split.
    + intros [= <- <-]. split_and!; try done.
      apply Forall_forall. intros ch Hin.
      destruct (decide (ch ∈ lit "gyb")) as [|Hn]; [done|]. exfalso.
      assert (existsb (fun ch => bool_decide (ch ∉ lit "gyb")) p = true) as Et.
      { apply existsb_exists. exists ch. split; [by apply list_elem_of_In|].
        by apply bool_decide_eq_true_2. }
      congruence.
    + by intros (_ & _ & -> & ->).
Qed.

(** C3, as the code has it: [add_guess] itself checks nothing and
    normalises nothing, it appends the record it is given, as given, and
    leaves the vocabulary alone.  The shape of both arguments is checked, and
    both are trimmed and lower-cased, by the command-line loop before it calls
    [add_guess]: a turn of the loop records a guess exactly when the
    normalised word has five alphabetic characters and the normalised pattern
    has five symbols among g, y and b, and what it records is the normalised
    pair. *)
Theorem add_guess_verbatim (session : WordleSession) (w p : str) :
  word_list (add_guess session w p) = word_list session
  /\ history (add_guess session w p)
     = history session ++ [ {| word := w; pattern := p |} ]
  /\ forall guess_in pattern_in session' cands,
       cli_turn session guess_in pattern_in = Accepted session' cands
       <-> word_shaped (normalise guess_in) = true
           /\ pattern_shaped (normalise pattern_in)
           /\ session' = add_guess session (normalise guess_in)
                                   (normalise pattern_in)
           /\ cands = get_candidates session'.
Proof.
  split; [done|]. split; [done|]. intros. apply cli_turn_accepted.
Qed.

(** C10, as the code has it: [add_guess] stores its arguments as given, so
    a guess whose lower-casing has not five characters can be in the history.
    If some word of the vocabulary passes the check on the records before such
    a guess (which every word does when the guess is the first record),
    [get_candidates] raises AssertionError.  When word and guess of every
    record and every word of the vocabulary have a lower-casing of five
    characters, the assertion holds at every call and [get_candidates]
    returns the filtered vocabulary. *)
Theorem get_candidates_assertion (session : WordleSession) :
  (forall w p,
     get_history_tuples (add_guess session w p)
     = get_history_tuples session ++ [(w, p)])
  /\ (forall pre g p post w,
        get_history_tuples session = pre ++ (g, p) :: post ->
        ~ scorable g ->
        w ∈ word_list session ->
        word_matches_history w pre = Ok true ->
        get_candidates session = Raise AssertionError)
  /\ (forall g p post,
        get_history_tuples session = (g, p) :: post ->
        ~ scorable g ->
        word_list session <> [] ->
        get_candidates session = Raise AssertionError)
  /\ (Forall scorable (word_list session) ->
      Forall (fun g => scorable (word g)) (history session) ->
      get_candidates session
      = Ok (List.filter (consistent (get_history_tuples session))
                        (word_list session))).
Proof.
  assert (forall pre g p post w,
            get_history_tuples session = pre ++ (g, p) :: post ->
            ~ scorable g -> w ∈ word_list session ->
            word_matches_history w pre = Ok true ->
            get_candidates session = Raise AssertionError) as Hraise.
  { intros pre g p post w Eh Hg Hw Hpre. unfold get_candidates. rewrite Eh.
    eapply (filter_candidates_raises _ _ w); [done|].
    rewrite word_matches_history_app, Hpre, bind_Ok.
    rewrite word_matches_history_cons, score_guess_raises; [done|].
    by intros [_ ?]. }
  split_and!.
  - intros w p. unfold get_history_tuples, add_guess. cbn [history].
    by rewrite fmap_app.
  - exact Hraise.
  - intros g p post Eh Hg Hne.
    destruct (word_list session) as [|w ws] eqn:Ew; [done|].
    apply (Hraise [] g p post w); [done|done| |done].
    rewrite ?Ew. by left.
  - intros Hws Hh. unfold get_candidates.
    apply filter_candidates_consistent; [done|].
    unfold get_history_tuples. apply Forall_fmap.
    eapply Forall_impl; [exact Hh|]. by intros g Hg.
Qed.

Lemma load_word_list_loop (acc : list str) (lines : list str) :
  foldl (fun words line =>
           let w := lower (strip line) in
           if bool_decide (length w = 5) && isalpha w
           then words ++ [w]
           else words)
        acc lines
  = acc ++ List.filter word_shaped (List.map normalise lines).
Proof.
  revert acc. induction lines as [|line lines IH]; intros acc.
  - cbn. by rewrite app_nil_r.
  - cbn [foldl List.map List.filter]. rewrite IH.
    unfold word_shaped at 2, normalise at 2.
    destruct (bool_decide _ && isalpha _); [|done].
    by rewrite <- app_assoc.
Qed.

(** C8, as the code has it: the loader trims and lower-cases each line,
    keeps the lines that then have exactly five alphabetic characters and
    drops the others, in the order of the file.  It removes no duplicate: the
    vocabulary is duplicate-free exactly when the kept lines are pairwise
    distinct after normalisation. *)
Theorem load_word_list_spec (lines : list str) :
  load_word_list lines = List.filter word_shaped (List.map normalise lines)
  /\ (NoDup (load_word_list lines)
      <-> NoDup (List.filter word_shaped (List.map normalise lines))).
Proof.
  assert (load_word_list lines
          = List.filter word_shaped (List.map normalise lines)) as E
    by (unfold load_word_list; by rewrite load_word_list_loop).
  split; [done|]. by rewrite E.
Qed.

(** C9, at the failing input: a click on "Reset session", from any session
    state (so after any calls of [add_guess]).  The state is cleared and the
    script runs again; that run stops with KeyError in
    [render_clickable_grid], before [main] and [init_state] are reached, and
    leaves the state empty: there is no session whose history could be empty
    and no vocabulary that [get_candidates] could return.  [init_state], had
    it run on the cleared state, would have built a session without guesses
    whose candidates are the whole vocabulary of words.txt. *)
Theorem reset_button_run (ss : SessionState) (file : list str) :
  script_run ResetButton ss = Raised empty_session_state (Py KeyError)
  /\ ss_session empty_session_state = None
  /\ ss_word_list empty_session_state = None
  /\ exists s,
       ss_session (init_state file (session_state_clear ss)) = Some s
       /\ history s = []
       /\ word_list s = load_word_list file
       /\ get_candidates s = Ok (load_word_list file).
Proof.
  split_and!; try reflexivity.
  exists (new_session (load_word_list file)). split_and!; try reflexivity.
  unfold get_candidates. cbn. apply filter_candidates_nil.
Qed.

End SessionTheorems.

(** ** The theorems on concrete sessions *)

Lemma filter_candidates_idempotent_witness :
  filter_candidates (H := ascii_builtins)
    [lit "crane"; lit "grape"] [(lit "slate", lit "bbgbg")]
  = filter_candidates (H := ascii_builtins)
      [lit "crane"; lit "slate"; lit "trace"; lit "grape"]
      [(lit "slate", lit "bbgbg")].
Proof.
  exact (filter_candidates_idempotent (H := ascii_builtins)
           [lit "crane"; lit "slate"; lit "trace"; lit "grape"]
           [(lit "slate", lit "bbgbg")]).
Defined.

(** [add_guess] takes a word of seven characters in upper case and a pattern
    of two characters outside g, y, b, and records them as they are. *)
Lemma add_guess_unvalidated :
  let s := add_guess (new_session [lit "crane"]) (lit "CRANE!!") (lit "zz") in
  history s = [ {| word := lit "CRANE!!"; pattern := lit "zz" |} ]
  /\ word_shaped (H := ascii_builtins) (lit "CRANE!!") = false
  /\ ~ pattern_shaped (lit "zz")
  /\ lower (Builtins := ascii_builtins) (lit "CRANE!!") <> lit "CRANE!!".
Proof.
  split; [reflexivity|]. split; [reflexivity|]. split.
  - intros [Hlen _]. discriminate Hlen.
  - discriminate.
Qed.

Lemma add_guess_verbatim_witness :
  cli_turn (H := ascii_builtins) (new_session [lit "crane"; lit "slate"])
    (lit " Crane ") (lit "GGGGG")
  = Accepted
      (add_guess (new_session [lit "crane"; lit "slate"]) (lit "crane") (lit "ggggg"))
      (Ok [lit "crane"]).
Proof.
  apply (add_guess_verbatim (H := ascii_builtins)
           (new_session [lit "crane"; lit "slate"]) (lit "x") (lit "y")).
  split; [reflexivity|]. split.
  - split; [reflexivity|]. repeat constructor.
  - split; reflexivity.
Defined.

(** A word source with the same word on two lines gives a vocabulary with
    that word twice. *)
Lemma load_word_list_duplicates :
  load_word_list (H := ascii_builtins)
    [lit "crane" ++ [10%N]; lit "Crane" ++ [10%N]]
  = [lit "crane"; lit "crane"]
  /\ ~ NoDup (load_word_list (H := ascii_builtins)
                [lit "crane" ++ [10%N]; lit "Crane" ++ [10%N]]).
Proof.
  split; [reflexivity|].
  intros Hnd. change (NoDup [lit "crane"; lit "crane"]) in Hnd.
  apply NoDup_cons in Hnd as [Hnotin _]. apply Hnotin. by left.
Qed.

(** Five alphabetic characters after trimming are not enough: a line that
    starts with U+0130 has six characters once lower-cased, and is dropped. *)
Lemma load_word_list_lower_changes_length :
  let line := 304%N :: lit "bcde" ++ [10%N] in
  length (strip (Builtins := dotted_builtins) line) = 5
  /\ isalpha (Builtins := dotted_builtins) (strip (Builtins := dotted_builtins) line)
     = true
  /\ load_word_list (H := dotted_builtins) [line] = [].
Proof. split; [reflexivity|]. split; reflexivity. Qed.

Lemma load_word_list_spec_witness :
  load_word_list (H := ascii_builtins)
    [lit " Crane" ++ [10%N]; lit "abc" ++ [10%N]; lit "slate" ++ [10%N];
     lit "12345" ++ [10%N]; lit "grapes" ++ [10%N]]
  = [lit "crane"; lit "slate"].
Proof.
  destruct (load_word_list_spec (H := ascii_builtins)
              [lit " Crane" ++ [10%N]; lit "abc" ++ [10%N]; lit "slate" ++ [10%N];
               lit "12345" ++ [10%N]; lit "grapes" ++ [10%N]]) as [E _].
  rewrite E. reflexivity.
Defined.

(** A malformed guess behind a record that no word of the vocabulary
    reproduces is never scored: [get_candidates] returns the empty list. *)
Lemma get_candidates_short_circuit :
  let s := add_guess
             (add_guess (new_session [lit "slate"]) (lit "crane") (lit "ggggg"))
             (lit "ab") (lit "bb") in
  (exists g, g ∈ history s
             /\ length (lower (Builtins := ascii_builtins) (word g)) <> 5)
  /\ word_list s <> []
  /\ get_candidates (H := ascii_builtins) s = Ok []
  /\ get_candidates (H := ascii_builtins) s <> Raise AssertionError.
Proof.
  split.
  - exists {| word := lit "ab"; pattern := lit "bb" |}. split.
    + cbn. right. left.
    + discriminate.
  - split; [discriminate|]. split; [reflexivity|discriminate].
Qed.

(** A guess of five characters whose lower-casing has six fails the
    assertion all the same. *)
Lemma get_candidates_lower_changes_length :
  let s := add_guess (new_session [lit "slate"])
             (304%N :: lit "bcde") (lit "bbbbb") in
  Forall (fun w => length w = 5) (word_list s)
  /\ Forall (fun g => length (word g) = 5) (history s)
  /\ get_candidates (H := dotted_builtins) s = Raise AssertionError.
Proof.
  split; [repeat constructor|]. split; [repeat constructor|]. reflexivity.
Qed.

Lemma get_candidates_assertion_witness :
  get_candidates (H := ascii_builtins)
    (add_guess (new_session [lit "slate"]) (lit "ab") (lit "bb"))
  = Raise AssertionError
  /\ get_candidates (H := ascii_builtins)
       (add_guess (new_session [lit "slate"; lit "crane"]) (lit "CRANE") (lit "ggggg"))
     = Ok [lit "crane"].
Proof.
  split.
  - destruct (get_candidates_assertion (H := ascii_builtins)
                (add_guess (new_session [lit "slate"]) (lit "ab") (lit "bb")))
      as (_ & _ & Hfirst & _).
    apply (Hfirst (lit "ab") (lit "bb") []); [reflexivity|discriminate|discriminate].
  - destruct (get_candidates_assertion (H := ascii_builtins)
                (add_guess (new_session [lit "slate"; lit "crane"])
                   (lit "CRANE") (lit "ggggg")))
      as (_ & _ & _ & Htotal).
    rewrite Htotal; [reflexivity|repeat constructor..].
Defined.

(** * More of the engine *)

(** ** The pattern, position by position *)

Lemma yellows_symbols (todo : list (char * char)) (sc : list (option char)) :
  Forall (fun rg => rg.1 = chr "g" \/ rg.1 = chr "b") todo ->
  Forall (fun r => r ∈ lit "gyb") (yellows todo sc).1.
Proof.
  intros Htodo. revert sc.
  induction Htodo as [|[r g] todo Hr _ IH]; intros sc; [by constructor|].
  cbn [fst] in Hr. cbn [yellows].
  assert (r ∈ lit "gyb") as Hin.
  { destruct Hr as [->| ->]; [by left|]. right. right. by left. }
  destruct (decide (r = chr "g")); [|destruct (decide (Some g ∈ sc))].
  - specialize (IH sc). destruct (yellows todo sc). by constructor.
  - specialize (IH (consume g sc)). destruct (yellows todo _).
    constructor; [|done]. right. by left.
  - specialize (IH sc). destruct (yellows todo sc). by constructor.
Qed.

(** The second loop makes no position green and leaves the green ones. *)
Lemma yellows_green (todo : list (char * char)) (sc : list (option char))
    (i : nat) :
  (yellows todo sc).1 !! i = Some (chr "g")
  <-> exists c, todo !! i = Some (chr "g", c).
Proof.
  revert sc i. induction todo as [|[r g] todo IH]; intros sc i.
  { cbn. split; [done|]. by intros [c ?]. }
  cbn [yellows].
  destruct (decide (r = chr "g")) as [->|Hr];
    [|destruct (decide (Some g ∈ sc))].
  - specialize (IH sc). destruct (yellows todo sc) as [out sc'].
    destruct i as [|i]; cbn in *; [|apply IH].
    split; [by exists g|done].
  - specialize (IH (consume g sc)). destruct (yellows todo _) as [out sc'].
    destruct i as [|i]; cbn in *; [|apply IH].
    split; [intros [= E]; by destruct chr_y_b|intros [c [= ? ?]]; done].
  - specialize (IH sc). destruct (yellows todo sc) as [out sc'].
    destruct i as [|i]; cbn in *; [|apply IH].
    split; [intros [= E]; done|intros [c [= ? ?]]; done].
Qed.

Lemma consume_subset (c x : char) (sc : list (option char)) :
  Some x ∈ consume c sc -> Some x ∈ sc.
Proof.
  unfold consume. destruct (list_find _ sc) as [[j y]|]; [|done].
  intros [k Hk]%list_elem_of_lookup.
  destruct (decide (k = j)) as [->|Hne].
  - destruct (decide (j < length sc)) as [Hlt|Hge].
    + by rewrite list_lookup_insert_eq in Hk.
    + rewrite list_insert_ge in Hk by lia. by eapply list_elem_of_lookup_2.
  - rewrite list_lookup_insert_ne in Hk by done.
    by eapply list_elem_of_lookup_2.
Qed.

(** A position that the second loop leaves non-grey was green before or has
    a letter that [secret_chars] held. *)
Lemma yellows_non_grey (todo : list (char * char)) (sc : list (option char))
    (i : nat) (r : char) :
  (yellows todo sc).1 !! i = Some r -> r <> chr "b" ->
  exists r0 c, todo !! i = Some (r0, c) /\ (r0 <> chr "b" \/ Some c ∈ sc).
Proof.
  revert sc i. induction todo as [|[r0 g] todo IH]; intros sc i; [done|].
  cbn [yellows].
  destruct (decide (r0 = chr "g")) as [->|Hr];
    [|destruct (decide (Some g ∈ sc)) as [Hin|Hin]].
  - specialize (IH sc). destruct (yellows todo sc) as [out sc'].
    destruct i as [|i]; cbn in *; [|apply IH].
    intros [= <-] _. exists (chr "g"), g. split; [done|]. left. apply chr_g_b.
  - specialize (IH (consume g sc)). destruct (yellows todo _) as [out sc'].
    destruct i as [|i]; cbn in *.
    + intros _ _. exists r0, g. split; [done|]. by right.
    + intros E Hr'. destruct (IH i E Hr') as (r1 & c & Ht & [?|Hc]);
        exists r1, c; (split; [done|]); [by left|].
      right. by eapply consume_subset.
  - specialize (IH sc). destruct (yellows todo sc) as [out sc'].
    destruct i as [|i]; cbn in *; [|apply IH].
    intros [= <-] Hb. exists r0, g. split; [done|]. by left.
Qed.

Lemma greens_lookup (guess secret : str) (i : nat) (r c : char) :
  zip (greens guess secret) guess !! i = Some (r, c)
  <-> exists s, guess !! i = Some c /\ secret !! i = Some s
                /\ r = (if decide (c = s) then chr "g" else chr "b").
Proof.
  unfold greens. revert secret i.
  induction guess as [|g guess IH]; intros [|s secret] i.
  - cbn. split; [done|]. by intros (? & ? & _).
  - cbn. split; [done|]. by intros (? & ? & _).
  - cbn. split; [done|]. intros (? & _ & ? & _). by destruct i.
  - destruct i as [|i]; cbn [zip_with zip lookup list_lookup]; [|apply IH].
    split.
    + intros [= <- <-]. by exists s.
    + by intros (s' & [= ->] & [= <-] & ->).
Qed.

Lemma leftover_subset (guess secret : str) (c : char) :
  Some c ∈ leftover guess secret -> c ∈ secret.
Proof.
  unfold leftover. intros [i Hi]%list_elem_of_lookup.
  apply lookup_zip_with_Some in Hi as (g & s & Hgs & _ & Hs).
  destruct (decide (g = s)); [done|]. injection Hgs as <-.
  by eapply list_elem_of_lookup_2.
Qed.

Lemma closed_form_shaped (secret guess : str) :
  length secret = 5 -> length guess = 5 ->
  pattern_shaped
    (yellows (zip (greens guess secret) guess) (leftover guess secret)).1.
Proof.
  intros Hs Hg. split.
  - unfold greens. rewrite yellows_length, !length_zip_with. lia.
  - apply yellows_symbols, greens_shape.
Qed.

Lemma closed_form_green (secret guess : str) (i : nat) :
  (yellows (zip (greens guess secret) guess) (leftover guess secret)).1 !! i
    = Some (chr "g")
  <-> exists c, guess !! i = Some c /\ secret !! i = Some c.
Proof.
  rewrite yellows_green. split.
  - intros [c (s & Hgi & Hsi & Hr)%greens_lookup]. exists c. split; [done|].
    destruct (decide (c = s)) as [->|]; [done|]. by destruct chr_g_b.
  - intros (c & Hgi & Hsi). exists c. apply greens_lookup. exists c.
    by rewrite decide_True.
Qed.

Lemma closed_form_non_grey (secret guess : str) (i : nat) (r c : char) :
  (yellows (zip (greens guess secret) guess) (leftover guess secret)).1 !! i
    = Some r ->
  r <> chr "b" -> guess !! i = Some c -> c ∈ secret.
Proof.
  intros Hr Hb Hgi.
  destruct (yellows_non_grey _ _ _ _ Hr Hb) as (r0 & c' & Ht & Hor).
  apply greens_lookup in Ht as (s & Hgi' & Hsi & Hr0).
  assert (c' = c) as -> by congruence.
  destruct Hor as [Hnb|Hleft]; [|by eapply leftover_subset].
  destruct (decide (c = s)) as [->|]; [|done].
  by eapply list_elem_of_lookup_2.
Qed.

Section PatternTheorems.
Context `{Builtins}.

Lemma score_guess_Ok (secret guess p : str) :
  score_guess secret guess = Ok p ->
  scorable secret /\ scorable guess
  /\ p = (yellows (zip (greens (lower guess) (lower secret)) (lower guess))
                  (leftover (lower guess) (lower secret))).1.
Proof.
  intros E. destruct (decide (scorable secret /\ scorable guess)) as [[Hs Hg]|Hn].
  - rewrite score_guess_closed in E by done. by injection E as <-.
  - by rewrite score_guess_raises in E.
Qed.

(** X1: whatever the scorer returns is a pattern: five symbols, each of them g,
    y or b. *)
Theorem score_guess_pattern_shaped (secret guess p : str) :
  score_guess secret guess = Ok p -> pattern_shaped p.
Proof.
  intros (Hs & Hg & ->)%score_guess_Ok. by apply closed_form_shaped.
Qed.

(** X2: a position of the pattern is green exactly when guess and secret have the
    same letter there (after lower-casing). *)
Theorem score_guess_green (secret guess p : str) (i : nat) :
  score_guess secret guess = Ok p ->
  (p !! i = Some (chr "g")
   <-> exists c, lower guess !! i = Some c /\ lower secret !! i = Some c).
Proof.
  intros (Hs & Hg & ->)%score_guess_Ok. apply closed_form_green.
Qed.

(** X3: a yellow position holds a letter that the secret has, at another
    position; a letter that the secret has not is grey wherever the guess has
    it. *)
Theorem score_guess_yellow_grey (secret guess p : str) (i : nat) (c : char) :
  score_guess secret guess = Ok p ->
  lower guess !! i = Some c ->
  (p !! i = Some (chr "y") -> c ∈ lower secret /\ lower secret !! i <> Some c)
  /\ (c ∉ lower secret -> p !! i = Some (chr "b")).
Proof.
  intros (Hs & Hg & ->)%score_guess_Ok Hgi.
  set (p := (yellows _ _).1).
  destruct (closed_form_shaped (lower secret) (lower guess) Hs Hg) as [Hlen _].
  fold p in Hlen. split.
  - intros Hy. split.
    + eapply closed_form_non_grey; [exact Hy|apply chr_y_b|done].
    + intros Hsi. assert (p !! i = Some (chr "g")) as Hgr
        by (apply closed_form_green; by exists c).
      rewrite Hy in Hgr. by injection Hgr.
  - intros Hnot.
    assert (i < length p) as Hlt.
    { apply lookup_lt_Some in Hgi. unfold scorable in Hg. lia. }
    destruct (lookup_lt_is_Some_2 p i Hlt) as [r Hr]. rewrite Hr. f_equal.
    destruct (decide (r = chr "b")) as [|Hb]; [done|].
    destruct Hnot. by eapply closed_form_non_grey.
Qed.

(** X4: the all-green pattern singles out the secret: on five-letter words it is
    returned exactly when guess and secret are the same word up to case. *)
Theorem score_guess_all_green (secret guess : str) :
  scorable secret -> scorable guess ->
  (score_guess secret guess = Ok (lit "ggggg") <-> lower secret = lower guess).
Proof.
  intros Hs Hg. split.
  - intros (_ & _ & E)%score_guess_Ok. unfold scorable in *.
    apply list_eq. intros i.
    destruct (decide (i < 5)) as [Hlt|Hge].
    + assert (lit "ggggg" !! i = Some (chr "g")) as Hi
        by (do 5 (destruct i as [|i]; [done|]); lia).
      rewrite E in Hi. apply closed_form_green in Hi as (c & -> & ->). done.
    + rewrite !lookup_ge_None_2 by lia. done.
  - intros E. rewrite score_guess_closed by done. f_equal. rewrite E.
    rewrite greens_same, yellows_all_green.
    + rewrite fst_zip by (rewrite length_replicate; lia).
      unfold scorable in Hg. by rewrite Hg.
    + apply Forall_forall. intros [r g] Hin. cbn [fst].
      apply elem_of_zip_l in Hin. cbn [fst] in Hin.
      by apply elem_of_replicate in Hin as [-> _].
Qed.

End PatternTheorems.

(** ** More on the check and the filter *)

Section FilterMore.
Context `{Builtins}.

Lemma consistent_Permutation (h h' : list (str * str)) (c : str) :
  h ≡ₚ h' -> consistent h c = consistent h' c.
Proof.
  unfold consistent. induction 1 as [|r h h' _ IH|r r' h|h h' h'' _ IH1 _ IH2];
    cbn [forallb]; [done|by rewrite IH| |congruence].
  by destruct (reproduces c r), (reproduces c r').
Qed.

Lemma consistent_false (h : list (str * str)) (c : str) (r : str * str) :
  r ∈ h -> reproduces c r = false -> consistent h c = false.
Proof.
  unfold consistent. induction 1 as [r h|r r' h _ IH]; intros Hr; cbn [forallb].
  - by rewrite Hr.
  - rewrite IH by done. apply andb_false_r.
Qed.

Lemma filter_none {A} (f : A -> bool) (l : list A) :
  (forall x, x ∈ l -> f x = false) -> List.filter f l = [].
Proof.
  induction l as [|x l IH]; intros Hf; [done|]. cbn [List.filter].
  rewrite (Hf x) by by left. apply IH. intros y Hy. apply Hf. by right.
Qed.

Lemma result_bind_assoc_Ok {A} (m : result A) : (x ← m; Ok x) = m.
Proof. by destruct m. Qed.

(** X5: the check stops at the first record that the candidate does not
    reproduce: what follows that record, well formed or not, is not looked
    at. *)
Theorem word_matches_history_short_circuit (c g p q : str)
    (pre post : list (str * str)) :
  word_matches_history c pre = Ok true ->
  score_guess c g = Ok q -> q <> p ->
  word_matches_history c (pre ++ (g, p) :: post) = Ok false.
Proof.
  intros Hpre Hq Hne.
  rewrite word_matches_history_app, Hpre, bind_Ok.
  rewrite word_matches_history_cons, Hq, bind_Ok. by rewrite decide_True.
Qed.

(** X6: whatever the filter returns is a sub-sequence of the vocabulary. *)
Theorem filter_candidates_sublist (ws l : list str) (hist : list (str * str)) :
  filter_candidates ws hist = Ok l -> l `sublist_of` ws.
Proof.
  intros E. destruct (filter_candidates_shrinks ws l [] hist E) as (l1 & E1 & Hs).
  rewrite filter_candidates_nil in E1. by injection E1 as <-.
Qed.

(** X7: on five-letter words the order of the records does not matter. *)
Theorem filter_candidates_permutation (ws : list str) (h h' : list (str * str)) :
  Forall scorable ws -> Forall (fun r => scorable r.1) h -> h ≡ₚ h' ->
  filter_candidates ws h = filter_candidates ws h'.
Proof.
  intros Hws Hh Hp.
  assert (Forall (fun r => scorable r.1) h') as Hh' by by rewrite <- Hp.
  rewrite !filter_candidates_consistent by done. f_equal.
  induction ws as [|w ws IH]; [done|]. cbn [List.filter].
  apply Forall_cons in Hws as [_ Hws].
  by rewrite IH, (consistent_Permutation h h' w Hp).
Qed.

(** X8: filtering a vocabulary given in two parts: the parts are filtered one
    after the other and the results joined. *)
Theorem filter_candidates_app (ws1 ws2 : list str) (hist : list (str * str)) :
  filter_candidates (ws1 ++ ws2) hist
  = l1 ← filter_candidates ws1 hist;
    l2 ← filter_candidates ws2 hist;
    Ok (l1 ++ l2).
Proof.
  induction ws1 as [|w ws1 IH].
  - cbn [app filter_candidates]. rewrite bind_Ok.
    by rewrite result_bind_assoc_Ok.
  - rewrite <- app_comm_cons, !filter_candidates_cons, IH.
    destruct (word_matches_history w hist) as [b|]; [|done]. rewrite !bind_Ok.
    destruct (filter_candidates ws1 hist) as [l1|]; [|done]. rewrite !bind_Ok.
    destruct (filter_candidates ws2 hist) as [l2|]; [|done]. rewrite !bind_Ok.
    by destruct b.
Qed.

(** X9: filtering with a history given in two parts is filtering with the first
    part and then filtering the result with the second: the candidates can be
    narrowed record by record. *)
Theorem filter_candidates_incremental (ws : list str) (h1 h2 : list (str * str)) :
  filter_candidates ws (h1 ++ h2)
  = l ← filter_candidates ws h1; filter_candidates l h2.
Proof.
  induction ws as [|w ws IH]; [done|].
  rewrite !filter_candidates_cons, word_matches_history_app, IH.
  destruct (word_matches_history w h1) as [[|]|e1]; [| |done]; rewrite !bind_Ok.
  - destruct (filter_candidates ws h1) as [r1|e1] eqn:E1.
    + rewrite !bind_Ok. by rewrite filter_candidates_cons.
    + apply filter_candidates_exn in E1 as ->.
      destruct (word_matches_history w h2) as [b2|e2] eqn:E2; [done|].
      by apply word_matches_history_exn in E2 as ->.
  - rewrite result_bind_assoc_Ok.
    by destruct (filter_candidates ws h1).
Qed.

(** X10: two records with the same guess and different patterns leave no
    candidate. *)
Theorem filter_candidates_contradiction (ws : list str) (hist : list (str * str))
    (g p1 p2 : str) :
  Forall scorable ws -> Forall (fun r => scorable r.1) hist ->
  (g, p1) ∈ hist -> (g, p2) ∈ hist -> p1 <> p2 ->
  filter_candidates ws hist = Ok [].
Proof.
  intros Hws Hh H1 H2 Hne. rewrite filter_candidates_consistent by done.
  f_equal. apply filter_none. intros c _.
  destruct (decide (score_guess c g = Ok p1)) as [E|E].
  - apply (consistent_false _ _ _ H2). unfold reproduces. cbn [fst snd].
    apply bool_decide_eq_false_2. congruence.
  - apply (consistent_false _ _ _ H1). unfold reproduces. cbn [fst snd].
    by apply bool_decide_eq_false_2.
Qed.

(** X11: a record whose pattern is not five symbols among g, y and b leaves no
    candidate. *)
Theorem filter_candidates_bad_pattern (ws : list str) (hist : list (str * str))
    (g p : str) :
  Forall scorable ws -> Forall (fun r => scorable r.1) hist ->
  (g, p) ∈ hist -> ~ pattern_shaped p ->
  filter_candidates ws hist = Ok [].
Proof.
  intros Hws Hh Hin Hbad. rewrite filter_candidates_consistent by done.
  f_equal. apply filter_none. intros c _.
  apply (consistent_false _ _ _ Hin). unfold reproduces. cbn [fst snd].
  apply bool_decide_eq_false_2. intros (Hs & Hg & ->)%score_guess_Ok.
  apply Hbad. by apply closed_form_shaped.
Qed.

(** X12: the secret is never lost: if every pattern of the history is the score
    of its guess against a word of the vocabulary, that word is among the
    candidates. *)
Theorem filter_candidates_keeps_secret (ws : list str) (hist : list (str * str))
    (secret : str) :
  Forall scorable ws -> secret ∈ ws ->
  Forall (fun r => score_guess secret r.1 = Ok r.2) hist ->
  exists l, filter_candidates ws hist = Ok l /\ secret ∈ l.
Proof.
  intros Hws Hin Hh.
  assert (Forall (fun r : str * str => scorable r.1) hist) as Hsc.
  { eapply Forall_impl; [exact Hh|]. intros r E. by apply score_guess_Ok in E as (_ & ? & _). }
  rewrite filter_candidates_consistent by done. eexists. split; [done|].
  apply list_elem_of_In, filter_In. split; [by apply list_elem_of_In|].
  unfold consistent. apply forallb_forall. intros r Hr%list_elem_of_In.
  rewrite Forall_forall in Hh. unfold reproduces.
  by apply bool_decide_eq_true_2, Hh.
Qed.

End FilterMore.

(** ** The vocabulary loader *)

Section LoaderMore.
Context `{Builtins}.

Lemma load_word_list_filter (lines : list str) :
  load_word_list lines = List.filter word_shaped (List.map normalise lines).
Proof. exact (load_word_list_loop [] lines). Qed.

(** X13: every word of a loaded vocabulary has five characters and is
    alphabetic. *)
Theorem load_word_list_words (lines : list str) :
  Forall (fun w => length w = 5 /\ isalpha w = true) (load_word_list lines).
Proof.
  rewrite load_word_list_filter. apply Forall_forall.
  intros w [_ Hw]%list_elem_of_In%filter_In. unfold word_shaped in Hw.
  apply andb_true_iff in Hw as [Hl ?]. by apply bool_decide_eq_true_1 in Hl.
Qed.

(** X14: loading a source given in two parts gives the two vocabularies one
    after the other. *)
Theorem load_word_list_app (lines1 lines2 : list str) :
  load_word_list (lines1 ++ lines2)
  = load_word_list lines1 ++ load_word_list lines2.
Proof.
  rewrite !load_word_list_filter, map_app. apply List.filter_app.
Qed.

End LoaderMore.

(** ** The board *)

Lemma dict_get_color (ch : char) :
  dict_get COLOR_SYMBOLS ch = None <-> ch ∉ lit "gyb".
Proof.
  unfold COLOR_SYMBOLS. cbn [dict_get].
  change (lit "gyb") with [chr "g"; chr "y"; chr "b"].
  rewrite !not_elem_of_cons.
  destruct (decide (chr "g" = ch)) as [<-|Hg]; [split; [done|by intros [? _]]|].
  destruct (decide (chr "y" = ch)) as [<-|Hy];
    [split; [done|by intros (_ & ? & _)]|].
  destruct (decide (chr "b" = ch)) as [<-|Hb];
    [split; [done|by intros (_ & _ & ? & _)]|].
  split; [|done]. intros _. split_and!; try done. apply not_elem_of_nil.
Qed.

Lemma board_symbols_None (pat : str) :
  board_symbols pat = None <-> ~ Forall (fun ch => ch ∈ lit "gyb") pat.
Proof.
  induction pat as [|ch pat IH]; cbn [board_symbols].
  - split; [done|]. intros Hn. destruct Hn. constructor.
  - rewrite Forall_cons.
    destruct (dict_get COLOR_SYMBOLS ch) as [sym|] eqn:E.
    + assert (ch ∈ lit "gyb") as Hin.
      { destruct (decide (ch ∈ lit "gyb")) as [|Hn]; [done|].
        apply dict_get_color in Hn. congruence. }
      destruct (board_symbols pat) as [syms|].
      * split; [done|]. intros Hn. destruct Hn. split; [done|].
        destruct (decide (Forall (fun ch => ch ∈ lit "gyb") pat)) as [|Hf]; [done|].
        by apply IH in Hf.
      * split; [|done]. intros _ [_ Hf]. by apply (proj1 IH).
    + split; [|done]. intros _ [Hin _]. by apply dict_get_color in E.
Qed.

Section BoardTheorems.
Variable upper : str -> str.

Lemma board_rows_spec (hist : list GuessResult) (rows : list nat) :
  ((board_rows upper hist rows).2 = None
   <-> Forall (fun i => forall g, hist !! i = Some g ->
                 Forall (fun ch => ch ∈ lit "gyb") (pattern g)) rows)
  /\ ((board_rows upper hist rows).2 = None
      \/ (board_rows upper hist rows).2 = Some KeyError)
  /\ ((board_rows upper hist rows).2 = None ->
      length (board_rows upper hist rows).1 = length rows).
Proof.
  induction rows as [|i rows (IH1 & IH2 & IH3)].
  { cbn. split_and!; [|by left|done]. split; [constructor|done]. }
  cbn [board_rows]. rewrite Forall_cons.
  destruct (hist !! i) as [gr|] eqn:Ei.
  - unfold board_row. destruct (board_symbols (pattern gr)) as [syms|] eqn:Es.
    + assert (Forall (fun ch => ch ∈ lit "gyb") (pattern gr)) as Hgr.
      { destruct (decide (Forall (fun ch => ch ∈ lit "gyb") (pattern gr)))
          as [|Hn]; [done|]. apply board_symbols_None in Hn. congruence. }
      destruct (board_rows upper hist rows) as [out e]. cbn [fst snd] in *.
      split_and!; [|done|intros E; cbn; by rewrite IH3].
      rewrite IH1. split; [|by intros [_ ?]].
      intros Hall. split; [|done]. by intros g [= <-].
    + cbn [fst snd]. split_and!; [|by right|done].
      split; [done|]. intros [Hi _]. exfalso.
      apply (proj1 (board_symbols_None (pattern gr)) Es). by apply Hi.
  - destruct (board_rows upper hist rows) as [out e]. cbn [fst snd] in *.
    split_and!; [|done|intros E; cbn; by rewrite IH3].
    rewrite IH1. split; [|by intros [_ ?]].
    intros Hall. split; [|done]. intros g Hg. congruence.
Qed.

Lemma first_rows_take (hist : list GuessResult) (P : GuessResult -> Prop) (n : nat) :
  Forall (fun i => forall g, hist !! i = Some g -> P g) (seq 0 n)
  <-> Forall P (take n hist).
Proof.
  rewrite !Forall_forall. split.
  - intros Hall g [i Hi]%list_elem_of_lookup.
    apply lookup_take_Some in Hi as [Hi Hlt].
    apply (Hall i); [|done]. apply elem_of_seq. lia.
  - intros Hall i [_ Hi]%elem_of_seq g Hg. apply Hall.
    apply list_elem_of_lookup. exists i. rewrite lookup_take_lt by lia. done.
Qed.

(** X15: the board raises KeyError exactly when one of the first six records has
    a symbol other than g, y and b in its pattern (nothing else can stop it);
    otherwise it prints eight texts: the title, six rows and an empty line. *)
Theorem print_board_raises (session : WordleSession) :
  (print_board upper session).2
  = (if decide (Forall (fun g => Forall (fun ch => ch ∈ lit "gyb") (pattern g))
                       (take 6 (history session)))
     then None else Some KeyError)
  /\ ((print_board upper session).2 = None ->
      length (print_board upper session).1 = 8).
Proof.
  unfold print_board, range.
  destruct (board_rows_spec (history session) (seq 0 6)) as (E1 & E2 & E3).
  rewrite first_rows_take in E1.
  destruct (board_rows upper (history session) (seq 0 6)) as [out e].
  cbn [fst snd] in *.
  destruct (decide (Forall _ (take 6 (history session)))) as [Hall|Hn].
  - apply E1 in Hall as ->. split; [done|]. intros _. cbn [fst length].
    rewrite length_app, E3 by done. done.
  - destruct E2 as [->| ->]; [by destruct Hn; apply E1|]. done.
Qed.

Lemma board_rows_ext (hist hist' : list GuessResult) (rows : list nat) :
  Forall (fun i => hist !! i = hist' !! i) rows ->
  board_rows upper hist rows = board_rows upper hist' rows.
Proof.
  induction 1 as [|i rows Hi _ IH]; [done|].
  cbn [board_rows]. by rewrite Hi, IH.
Qed.

(** X16: the board shows the first six records only: later ones, and the
    vocabulary, change nothing of what it prints or raises. *)
Theorem print_board_first_six (session : WordleSession) (wl : list str) :
  print_board upper session
  = print_board upper {| word_list := wl; history := take 6 (history session) |}.
Proof.
  unfold print_board, range. cbn [history].
  rewrite (board_rows_ext (history session) (take 6 (history session))); [done|].
  apply Forall_forall. intros i [_ Hi]%elem_of_seq.
  by rewrite lookup_take_lt by lia.
Qed.

End BoardTheorems.

(** ** The loop of [main] *)

Section MainTheorems.
Context `{Builtins}.
Variable upper : str -> str.

Lemma print_board_quiet (session : WordleSession) :
  Forall (fun g => Forall (fun ch => ch ∈ lit "gyb") (pattern g))
         (history session) ->
  (print_board upper session).2 = None.
Proof.
  intros Hall. unfold print_board, range.
  destruct (board_rows_spec upper (history session) (seq 0 6)) as (E1 & _ & _).
  destruct (board_rows upper (history session) (seq 0 6)) as [out e].
  cbn [fst snd] in *.
  assert (e = None) as ->; [|done]. apply E1, first_rows_take.
  by apply Forall_take.
Qed.

(** X17: a run of the loop leaves the vocabulary alone and only appends to the
    history, and every record it appends is validated: a word of five
    alphabetic characters and a pattern of five symbols among g, y and b. *)
Theorem cli_run_history (session : WordleSession) (inputs : list str) :
  word_list (end_session (cli_run upper session inputs)) = word_list session
  /\ exists added,
       history (end_session (cli_run upper session inputs))
       = history session ++ added
       /\ Forall record_shaped added.
Proof.
  remember (length inputs) as n eqn:Hn.
  assert (length inputs <= n) as Hle by lia. clear Hn.
  revert session inputs Hle. induction n as [|n IH]; intros s inputs Hle.
  - destruct inputs; [|cbn in Hle; lia]. cbn [cli_run].
    destruct (print_board upper s).2; (split; [done|]); exists [];
      by rewrite app_nil_r.
  - destruct inputs as [|g tl]; cbn [cli_run];
      (destruct (print_board upper s).2;
       [split; [done|]; exists []; by rewrite app_nil_r|]).
    { split; [done|]. exists []. by rewrite app_nil_r. }
    cbn [length] in Hle.
    destruct (cli_turn s g (default [] (head tl))) as [| | |s' c] eqn:Et.
    + split; [done|]. exists []. by rewrite app_nil_r.
    + apply IH. lia.
    + destruct tl as [|p rest].
      * split; [done|]. exists []. by rewrite app_nil_r.
      * apply IH. cbn [length] in Hle. lia.
    + destruct tl as [|p rest].
      * split; [done|]. exists []. by rewrite app_nil_r.
      * change (default [] (head (p :: rest))) with p in Et.
        apply cli_turn_accepted in Et as (Hw & Hp & -> & ->).
        set (s' := add_guess s (normalise g) (normalise p)).
        assert (record_shaped {| word := normalise g; pattern := normalise p |})
          as Hrec by done.
        destruct (get_candidates s').
        -- destruct (IH s' rest) as (Ewl & added & Eh & Hadd);
             [cbn [length] in Hle; lia|].
           split; [by rewrite Ewl|].
           exists ({| word := normalise g; pattern := normalise p |} :: added).
           split; [|by constructor].
           rewrite Eh. unfold s', add_guess. cbn [history].
           by rewrite <- app_assoc.
        -- split; [done|].
           exists [ {| word := normalise g; pattern := normalise p |} ].
           split; [done|]. by constructor.
Qed.

Lemma shaped_scorable (line : str) :
  (forall x, lower (lower x) = lower x) ->
  word_shaped (normalise line) = true -> scorable (normalise line).
Proof.
  intros Hidem Hw. unfold scorable, normalise. rewrite Hidem.
  unfold word_shaped, normalise in Hw.
  apply andb_true_iff in Hw as [Hl _]. by apply bool_decide_eq_true_1 in Hl.
Qed.

Lemma load_word_list_scorable (lines : list str) :
  (forall x, lower (lower x) = lower x) ->
  Forall scorable (load_word_list lines).
Proof.
  intros Hidem. rewrite load_word_list_filter. apply Forall_forall.
  intros w [Hin Hw]%list_elem_of_In%filter_In.
  apply in_map_iff in Hin as (line & <- & _). by apply shaped_scorable.
Qed.

Lemma cli_run_safe (session session' : WordleSession) (inputs : list str)
    (e : py_exn) :
  (forall x, lower (lower x) = lower x) ->
  session_ok session ->
  cli_run upper session inputs = Stopped session' e -> e = EOFError.
Proof.
  intros Hidem.
  remember (length inputs) as n eqn:Hn.
  assert (length inputs <= n) as Hle by lia. clear Hn.
  revert session inputs Hle. induction n as [|n IH]; intros s inputs Hle Hok.
  - destruct inputs; [|cbn in Hle; lia]. cbn [cli_run].
    rewrite print_board_quiet; [by intros [= _ <-]|].
    destruct Hok as [_ Hh]. eapply Forall_impl; [exact Hh|]. by intros g [_ ?].
  - assert ((print_board upper s).2 = None) as Hb.
    { apply print_board_quiet. destruct Hok as [_ Hh].
      eapply Forall_impl; [exact Hh|]. by intros g [_ ?]. }
    destruct inputs as [|g tl]; cbn [cli_run]; rewrite Hb;
      [by intros [= _ <-]|].
    cbn [length] in Hle.
    destruct (cli_turn s g (default [] (head tl))) as [| | |s' c] eqn:Et.
    + done.
    + apply IH; [lia|done].
    + destruct tl as [|p rest]; [by intros [= _ <-]|].
      apply IH; [cbn [length] in Hle; lia|done].
    + destruct tl as [|p rest]; [by intros [= _ <-]|].
      change (default [] (head (p :: rest))) with p in Et.
      apply cli_turn_accepted in Et as (Hw & [Hpl Hps] & -> & ->).
      set (s' := add_guess s (normalise g) (normalise p)).
      assert (session_ok s') as Hok'.
      { destruct Hok as [Hwl Hh]. split; [done|].
        unfold s', add_guess. cbn [history]. apply Forall_app. split; [done|].
        constructor; [|done]. cbn [word pattern].
        split; [by apply shaped_scorable|done]. }
      assert (exists l, get_candidates s' = Ok l) as [l ->].
      { destruct Hok' as [Hwl Hh]. unfold get_candidates. eexists.
        apply filter_candidates_consistent; [done|].
        unfold get_history_tuples. apply Forall_fmap.
        eapply Forall_impl; [exact Hh|]. by intros r [? _]. }
      apply IH; [cbn [length] in Hle; lia|done].
Qed.

(** X18: if lower-casing a lower-cased string changes nothing, [main] never stops
    on a failed assertion or a missing key: it ends with the blank guess or,
    when standard input runs out, with EOFError. *)
Theorem main_ends_quietly (file inputs : list str) (session : WordleSession)
    (e : py_exn) :
  (forall x, lower (lower x) = lower x) ->
  main upper file inputs = Stopped session e -> e = EOFError.
Proof.
  intros Hidem. unfold main. apply cli_run_safe; [done|].
  split; [by apply load_word_list_scorable|constructor].
Qed.

End MainTheorems.

(** ** The page of the Streamlit application *)

Lemma outcome_bind_Done {A B} (a : A) (f : A -> outcome B) : Done a ≫= f = f a.
Proof. reflexivity. Qed.

Lemma gyb_cases (c : char) :
  c ∈ lit "gyb" <-> c = chr "g" \/ c = chr "y" \/ c = chr "b".
Proof.
  change (lit "gyb") with [chr "g"; chr "y"; chr "b"].
  rewrite !elem_of_cons, elem_of_nil. tauto.
Qed.

Lemma next_color_gyb (c : char) : next_color c ∈ lit "gyb".
Proof.
  apply gyb_cases. unfold next_color.
  repeat case_decide; auto.
Qed.

Lemma next_color_thrice (c : char) :
  c ∈ lit "gyb" -> next_color (next_color (next_color c)) = c.
Proof. intros [->|[->| ->]]%gyb_cases; reflexivity. Qed.

(** What [cycle_color] does, case by case. *)
Lemma cycle_color_cases (row col : nat) (ss : SessionState) :
  cycle_color row col ss
  = match ss_color_grid ss with
    | None => Crash KeyError
    | Some grid =>
        match grid !! row with
        | None => Crash (Engine IndexError)
        | Some cells =>
            match cells !! col with
            | None => Crash (Engine IndexError)
            | Some current =>
                if decide (current ∈ lit "gyb") then
                  Done {| ss_word_list := ss_word_list ss;
                          ss_session := ss_session ss;
                          ss_color_grid :=
                            Some (<[row := <[col := next_color current]> cells]> grid);
                          ss_active_row := ss_active_row ss |}
                else Crash (Engine ValueError)
            end
        end
    end.
Proof.
  unfold cycle_color, state_key, item.
  destruct (ss_color_grid ss) as [grid|]; [|done]. rewrite outcome_bind_Done.
  destruct (grid !! row) as [cells|]; [|done]. rewrite outcome_bind_Done.
  destruct (cells !! col) as [current|]; [|done]. rewrite outcome_bind_Done.
  destruct (decide (current ∈ lit "gyb")) as [Hin|Hn].
  - apply gyb_cases in Hin as [->|[->| ->]]; reflexivity.
  - assert (index colors current = Raise ValueError) as ->; [|done].
    unfold index, colors.
    destruct (list_find _ _) as [[j y]|] eqn:E; [|done].
    apply list_find_Some in E as (Hj & -> & _). destruct Hn.
    apply gyb_cases. apply list_elem_of_lookup_2 in Hj.
    rewrite !elem_of_cons, elem_of_nil in Hj. tauto.
Qed.

Lemma grid_ok_lookup (grid : list (list char)) (row col : nat) :
  grid_ok grid -> row < 6 -> col < 5 ->
  exists cells current,
    grid !! row = Some cells /\ cells !! col = Some current
    /\ pattern_shaped cells /\ current ∈ lit "gyb".
Proof.
  intros [Hlen Hrows] Hrow Hcol.
  destruct (lookup_lt_is_Some_2 grid row) as [cells Hcells]; [lia|].
  pose proof (Forall_lookup_1 _ _ _ _ Hrows Hcells) as [Hl Hsym].
  destruct (lookup_lt_is_Some_2 cells col) as [current Hcur]; [lia|].
  exists cells, current. split_and!; try done.
  by eapply (Forall_lookup_1 _ _ _ _ Hsym).
Qed.

Lemma grid_ok_insert (grid : list (list char)) (cells : list char)
    (row col : nat) (x : char) :
  grid_ok grid -> pattern_shaped cells -> x ∈ lit "gyb" ->
  grid_ok (<[row := <[col := x]> cells]> grid).
Proof.
  intros [Hlen Hrows] [Hl Hsym] Hx. split; [by rewrite length_insert|].
  apply Forall_insert; [done|]. split; [by rewrite length_insert|].
  by apply Forall_insert.
Qed.




(** A well-formed grid shows all its buttons. *)
Lemma grid_cell_ok (ss : SessionState) (grid : list (list char)) (r c : nat) :
  ss_color_grid ss = Some grid -> grid_ok grid -> r < 6 -> c < 5 ->
  (g ← state_key (ss_color_grid ss); row ← item g r; color ← item row c;
   emoji_key color) = Done ().
Proof.
  intros -> Hgrid Hr Hc.
  destruct (grid_ok_lookup grid r c Hgrid Hr Hc)
    as (cells & current & Hcells & Hcur & _ & Hin).
  cbn [state_key]. rewrite outcome_bind_Done. unfold item.
  rewrite Hcells, outcome_bind_Done, Hcur, outcome_bind_Done.
  unfold emoji_key. by rewrite decide_True.
Qed.

(** Without a click on a cell the grid asks for no rerun and changes
    nothing: the pass goes on, or stops on a key or an index. *)
Lemma grid_buttons_no_click (w : widget) (ss : SessionState) (active_row : nat)
    (cells : list (nat * nat)) (e0 : script_exn) :
  (forall r c, clicked w r c active_row = false) ->
  exists e,
    grid_buttons w ss active_row cells (Raised ss e0) = Raised ss e
    /\ ((exists grid, ss_color_grid ss = Some grid /\ grid_ok grid) ->
        Forall (fun rc => rc.1 < 6 /\ rc.2 < 5) cells -> e = e0).
Proof.
  intros Hw. induction cells as [|[r c] cells (e & IH1 & IH2)].
  - by exists e0.
  - cbn [grid_buttons]. rewrite Hw.
    destruct (g ← state_key (ss_color_grid ss); row ← item g r;
              color ← item row c; emoji_key color) as [[]|e1] eqn:E;
      cbn [try_py].
    + exists e. split; [done|]. intros Hg [_ Hall]%Forall_cons_1. by apply IH2.
    + eexists. split; [done|].
      intros (grid & Hgrid & Hok) [[Hr Hc] _]%Forall_cons_1. cbn [fst snd] in *.
      rewrite (grid_cell_ok ss grid r c) in E by done. done.
Qed.

Lemma grid_cells_range : Forall (fun rc => rc.1 < 6 /\ rc.2 < 5) grid_cells.
Proof. unfold grid_cells, range. cbn. repeat constructor. Qed.

Section ScriptLemmas.
Context `{Builtins}.

Lemma grid_step_no_click (w : widget) (ss : SessionState) :
  (forall r c active_row, clicked w r c active_row = false) ->
  exists e,
    grid_step w ss (Raised ss NameError) = Raised ss e
    /\ (page_ok ss -> e = NameError).
Proof.
  intros Hw. unfold grid_step, try_py, state_key.
  destruct (ss_active_row ss) as [ar|] eqn:Har.
  - destruct (grid_buttons_no_click w ss ar grid_cells NameError)
      as (e & E & He); [by intros; apply Hw|].
    exists e. split; [done|].
    intros (wl & s & grid & row & -> & Hgrid & _). apply He.
    + by exists grid.
    + apply grid_cells_range.
  - eexists. split; [done|]. intros (? & ? & ? & ? & -> & _). done.
Qed.

End ScriptLemmas.

Section PageTheorems.
Context `{Builtins}.

(** X19: on a well-formed page a click on one of the thirty cells succeeds: the
    cell takes the next colour of the cycle b, y, g, every other cell and key
    keeps its value, and the page stays well formed. *)
Theorem cycle_color_page_ok (row col : nat) (ss : SessionState) :
  page_ok ss -> row < 6 -> col < 5 ->
  exists ss',
    cycle_color row col ss = Done ss'
    /\ page_ok ss'
    /\ cell ss' row col = next_color <$> cell ss row col
    /\ (forall r c, r <> row \/ c <> col -> cell ss' r c = cell ss r c)
    /\ ss_word_list ss' = ss_word_list ss
    /\ ss_session ss' = ss_session ss
    /\ ss_active_row ss' = ss_active_row ss.
Proof.
  intros (wl & s & grid & ar & -> & Hgrid & Har & Hrec) Hrow Hcol.
  destruct (grid_ok_lookup grid row col Hgrid Hrow Hcol)
    as (cells & current & Hcells & Hcur & Hshape & Hin).
  rewrite cycle_color_cases. cbn [ss_color_grid]. rewrite Hcells, Hcur.
  rewrite decide_True by done. eexists. split; [done|].
  assert (row < length grid) as Hr by (by eapply lookup_lt_Some).
  assert (col < length cells) as Hc by (by eapply lookup_lt_Some).
  split_and!; try done.
  - eexists _, _, _, _. split; [done|]. split_and!; try done.
    apply grid_ok_insert; [done..|apply next_color_gyb].
  - unfold cell. cbn. rewrite list_lookup_insert_eq by done. cbn.
    rewrite list_lookup_insert_eq by done. by rewrite Hcells; cbn; rewrite Hcur.
  - intros r c Hne. unfold cell. cbn.
    destruct (decide (r = row)) as [->|Hr'].
    + rewrite list_lookup_insert_eq by done. cbn. rewrite Hcells. cbn.
      destruct Hne as [?|Hc']; [done|]. by rewrite list_lookup_insert_ne.
    + by rewrite list_lookup_insert_ne.
Qed.

(** X20: three clicks on a cell of a well-formed page bring the page back to the
    state it was in. *)
Theorem cycle_color_thrice (row col : nat) (ss : SessionState) :
  page_ok ss -> row < 6 -> col < 5 ->
  (ss1 ← cycle_color row col ss; ss2 ← cycle_color row col ss1;
   cycle_color row col ss2) = Done ss.
Proof.
  intros (wl & s & grid & ar & -> & Hgrid & Har & Hrec) Hrow Hcol.
  destruct (grid_ok_lookup grid row col Hgrid Hrow Hcol)
    as (cells & current & Hcells & Hcur & Hshape & Hin).
  assert (row < length grid) as Hr by (by eapply lookup_lt_Some).
  assert (col < length cells) as Hc by (by eapply lookup_lt_Some).
  rewrite cycle_color_cases. cbn [ss_color_grid]. rewrite Hcells, Hcur.
  rewrite decide_True, outcome_bind_Done by done.
  rewrite cycle_color_cases. cbn [ss_color_grid ss_word_list ss_session ss_active_row].
  rewrite list_lookup_insert_eq, list_lookup_insert_eq by done.
  rewrite decide_True, outcome_bind_Done by apply next_color_gyb.
  rewrite cycle_color_cases. cbn [ss_color_grid ss_word_list ss_session ss_active_row].
  rewrite list_lookup_insert_eq by (by rewrite length_insert).
  rewrite list_lookup_insert_eq by (by rewrite length_insert).
  rewrite decide_True by apply next_color_gyb.
  rewrite !list_insert_insert_eq, next_color_thrice by done.
  by rewrite (list_insert_id cells), (list_insert_id grid).
Qed.


(** X22: the script never fills the session state.  As long as the state has
    no "active_row", as in a new browser session, every run, whatever widget
    started it, stops with KeyError and stores nothing: [render_clickable_grid]
    and the form read that key before [main], and with it [init_state], is
    called.  The state is left as it was, or empty after the Reset button, so
    the next run starts without the key again. *)
Theorem script_run_uninitialised (w : widget) (ss : SessionState) :
  ss_active_row ss = None ->
  exists ss',
    script_run w ss = Raised ss' (Py KeyError)
    /\ ss' = (match w with ResetButton => empty_session_state | _ => ss end)
    /\ ss_active_row ss' = None.
Proof.
  intros Hrow. unfold script_run, script_pass.
  destruct w as [|text| |r c]; cbn [form_step reset_step].
  - unfold grid_step. rewrite Hrow. by eexists.
  - destruct (bool_decide _ || negb _).
    + unfold grid_step. rewrite Hrow. by eexists.
    + rewrite Hrow. by eexists.
  - by eexists.
  - unfold grid_step. rewrite Hrow. by eexists.
Qed.

(** X23: the form records nothing.  A run that the form started, with any
    text and from any session state, ends in an exception and leaves the
    state exactly as it was; on a well-formed page state the exception is the
    NameError of the unbound name [session], whether the word is accepted
    (at [session.add_guess]) or refused (at [render_board(session)]). *)
Theorem apply_guess_records_nothing (text : str) (ss : SessionState) :
  exists e,
    script_run (ApplyGuess text) ss = Raised ss e
    /\ (page_ok ss -> e = NameError).
Proof.
  unfold script_run, script_pass. cbn [form_step reset_step].
  destruct (bool_decide _ || negb _).
  - destruct (grid_step_no_click (ApplyGuess text) ss) as (e & -> & He);
      [done|]. by exists e.
  - unfold try_py, state_key.
    destruct (ss_active_row ss) as [row|] eqn:Hrow.
    2:{ eexists. split; [done|]. intros (? & ? & ? & ? & -> & _). done. }
    destruct (ss_color_grid ss) as [grid|] eqn:Hgrid.
    2:{ eexists. split; [done|]. intros (? & ? & ? & ? & -> & _). done. }
    rewrite outcome_bind_Done. unfold item.
    destruct (grid !! row) as [pat|] eqn:Hpat; [by eexists|].
    eexists. split; [done|].
    intros (wl & s & grid' & row' & -> & [Hlen _] & Hle & _).
    cbn in Hrow, Hgrid. injection Hrow as <-. injection Hgrid as <-.
    apply lookup_ge_None_1 in Hpat. lia.
Qed.

(** A rerun of the script on a state that [init_state] has filled changes
    nothing, whatever words.txt holds by then: the vocabulary is loaded
    once. *)
Lemma init_state_idempotent (file file' : list str) (ss : SessionState) :
  init_state file' (init_state file ss) = init_state file ss.
Proof. reflexivity. Qed.

End PageTheorems.

(** ** The board of the page *)

Section RenderTheorems.
Context `{Builtins}.
Variable upper : str -> str.

Lemma render_tiles_spec (w pat : str) (js : list nat) :
  (Forall (fun j => j < length pat) js ->
   exists tiles, render_tiles w pat js = Done tiles)
  /\ (~ Forall (fun j => j < length pat) js ->
      render_tiles w pat js = Crash (Engine IndexError)).
Proof.
  induction js as [|j js [IH1 IH2]].
  { split; [by eexists|]. intros Hn. destruct Hn. constructor. }
  cbn [render_tiles]. unfold item. rewrite Forall_cons.
  destruct (pat !! j) as [p|] eqn:Ep.
  - rewrite outcome_bind_Done. apply lookup_lt_Some in Ep. split.
    + intros [_ Hjs]. destruct (IH1 Hjs) as [tiles ->]. by eexists.
    + intros Hn. rewrite IH2; [done|]. intros Hjs. by apply Hn.
  - apply lookup_ge_None_1 in Ep. split; [intros [? _]; lia|done].
Qed.

Lemma range_below (n m : nat) : Forall (fun j => j < m) (range n) <-> n <= m.
Proof.
  unfold range. rewrite Forall_forall. split.
  - intros Hall. destruct n as [|n]; [lia|].
    assert (n < m); [|lia]. apply Hall, elem_of_seq. lia.
  - intros Hle j [_ Hj]%elem_of_seq. lia.
Qed.

Lemma render_rows_spec (hist : list GuessResult) (rows : list nat) :
  (Forall (fun i => forall g, hist !! i = Some g -> 5 <= length (pattern g)) rows ->
   exists html, render_rows upper hist rows = Done html)
  /\ (~ Forall (fun i => forall g, hist !! i = Some g -> 5 <= length (pattern g)) rows ->
      render_rows upper hist rows = Crash (Engine IndexError)).
Proof.
  induction rows as [|i rows [IH1 IH2]].
  { split; [by eexists|]. intros Hn. destruct Hn. constructor. }
  cbn [render_rows]. rewrite Forall_cons.
  destruct (hist !! i) as [gr|] eqn:Ei.
  - destruct (render_tiles_spec (upper (word gr)) (pattern gr) (range 5))
      as [T1 T2]. rewrite range_below in T1, T2.
    destruct (decide (5 <= length (pattern gr))) as [Hlen|Hlen].
    + destruct (T1 Hlen) as [tiles ->]. rewrite outcome_bind_Done. split.
      * intros [_ Hrows]. destruct (IH1 Hrows) as [html ->]. by eexists.
      * intros Hn. rewrite IH2; [done|]. intros Hrows. apply Hn.
        split; [|done]. by intros g [= <-].
    + rewrite (T2 Hlen). split; [|done]. intros [Hi _]. destruct Hlen. by apply Hi.
  - destruct (render_tiles_spec (lit "     ") (lit "bbbbb") (range 5)) as [T1 _].
    destruct T1 as [tiles ->]; [by apply range_below|].
    rewrite outcome_bind_Done. split.
    + intros [_ Hrows]. destruct (IH1 Hrows) as [html ->]. by eexists.
    + intros Hn. rewrite IH2; [done|]. intros Hrows. apply Hn.
      split; [|done]. intros g Hg. congruence.
Qed.

(** X24: the board of the page is rendered when the patterns of the first six
    records have at least five symbols each, whatever the symbols are;
    otherwise it raises IndexError. *)
Theorem render_board_raises (session : WordleSession) :
  (Forall (fun g => 5 <= length (pattern g)) (take 6 (history session)) ->
   exists html, render_board upper session = Done html)
  /\ (~ Forall (fun g => 5 <= length (pattern g)) (take 6 (history session)) ->
      render_board upper session = Crash (Engine IndexError)).
Proof.
  unfold render_board, range.
  destruct (render_rows_spec (history session) (seq 0 6)) as [R1 R2].
  rewrite first_rows_take in R1, R2. split.
  - intros Hall. destruct (R1 Hall) as [html ->]. by eexists.
  - intros Hn. by rewrite (R2 Hn).
Qed.


End RenderTheorems.

(** ** The further theorems on concrete inputs *)

Lemma ascii_lower_idempotent (x : str) :
  lower (Builtins := ascii_builtins) (lower (Builtins := ascii_builtins) x)
  = lower (Builtins := ascii_builtins) x.
Proof.
  cbn [lower ascii_builtins]. rewrite map_map. apply map_ext. intros c.
  unfold ascii_lower_char.
  destruct ((65 <=? c)%N && (c <=? 90)%N) eqn:E; [|by rewrite E].
  apply andb_true_iff in E as [E1%N.leb_le _].
  assert ((c + 32 <=? 90)%N = false) as -> by (apply N.leb_gt; lia).
  by rewrite andb_false_r.
Qed.

Lemma fresh_page_ok (file : list str) :
  page_ok (H := ascii_builtins)
    (init_state (H := ascii_builtins) file empty_session_state).
Proof.
  eexists _, _, _, 0. split; [reflexivity|]. split_and!.
  - split; [done|]. apply Forall_replicate. split; [done|].
    apply Forall_replicate. apply gyb_cases. auto.
  - lia.
  - constructor.
Defined.

Lemma score_guess_pattern_shaped_witness : pattern_shaped (lit "yygbb").
Proof.
  apply (score_guess_pattern_shaped (H := ascii_builtins) (lit "allow") (lit "lolly")).
  reflexivity.
Defined.

Lemma score_guess_green_witness :
  lit "yygbb" !! 2 = Some (chr "g")
  <-> exists c, lit "lolly" !! 2 = Some c /\ lit "allow" !! 2 = Some c.
Proof.
  apply (score_guess_green (H := ascii_builtins) (lit "allow") (lit "lolly")).
  reflexivity.
Defined.

Lemma score_guess_yellow_grey_witness :
  (lit "yygbb" !! 0 = Some (chr "y") ->
   chr "l" ∈ lit "allow" /\ lit "allow" !! 0 <> Some (chr "l"))
  /\ (chr "l" ∉ lit "allow" -> lit "yygbb" !! 0 = Some (chr "b")).
Proof.
  apply (score_guess_yellow_grey (H := ascii_builtins) (lit "allow") (lit "lolly"));
    reflexivity.
Defined.

Lemma score_guess_all_green_witness :
  score_guess (H := ascii_builtins) (lit "Crane") (lit "cRANE") = Ok (lit "ggggg")
  <-> lit "crane" = lit "crane".
Proof.
  apply (score_guess_all_green (H := ascii_builtins) (lit "Crane") (lit "cRANE"));
    reflexivity.
Defined.

Lemma word_matches_history_short_circuit_witness :
  word_matches_history (H := ascii_builtins) (lit "slate")
    ([] ++ (lit "crane", lit "ggggg") :: [(lit "ab", lit "bb")])
  = Ok false.
Proof.
  apply (word_matches_history_short_circuit (H := ascii_builtins)
           (lit "slate") (lit "crane") (lit "ggggg") (lit "bbgbg"));
    [reflexivity|reflexivity|discriminate].
Defined.

Lemma filter_candidates_sublist_witness :
  [lit "crane"; lit "grape"]
    `sublist_of` [lit "crane"; lit "slate"; lit "trace"; lit "grape"].
Proof.
  apply (filter_candidates_sublist (H := ascii_builtins) _ _
           [(lit "slate", lit "bbgbg")]).
  reflexivity.
Defined.

Lemma filter_candidates_permutation_witness :
  filter_candidates (H := ascii_builtins)
    [lit "crane"; lit "slate"; lit "grape"]
    [(lit "slate", lit "bbgbg"); (lit "crane", lit "bggbg")]
  = filter_candidates (H := ascii_builtins)
      [lit "crane"; lit "slate"; lit "grape"]
      [(lit "crane", lit "bggbg"); (lit "slate", lit "bbgbg")].
Proof.
  apply (filter_candidates_permutation (H := ascii_builtins)).
  - repeat constructor.
  - repeat constructor.
  - apply perm_swap.
Defined.

Lemma filter_candidates_app_witness :
  filter_candidates (H := ascii_builtins)
    ([lit "crane"; lit "slate"] ++ [lit "trace"; lit "grape"])
    [(lit "slate", lit "bbgbg")]
  = Ok ([lit "crane"] ++ [lit "grape"]).
Proof.
  rewrite (filter_candidates_app (H := ascii_builtins)). reflexivity.
Defined.

Lemma filter_candidates_incremental_witness :
  filter_candidates (H := ascii_builtins)
    [lit "crane"; lit "slate"; lit "trace"; lit "grape"]
    ([(lit "slate", lit "bbgbg")] ++ [(lit "crane", lit "bggbg")])
  = filter_candidates (H := ascii_builtins)
      [lit "crane"; lit "grape"] [(lit "crane", lit "bggbg")].
Proof.
  rewrite (filter_candidates_incremental (H := ascii_builtins)). reflexivity.
Defined.

Lemma filter_candidates_contradiction_witness :
  filter_candidates (H := ascii_builtins)
    [lit "crane"; lit "slate"]
    [(lit "crane", lit "ggggg"); (lit "crane", lit "bbgbg")]
  = Ok [].
Proof.
  apply (filter_candidates_contradiction (H := ascii_builtins) _ _
           (lit "crane") (lit "ggggg") (lit "bbgbg")).
  - repeat constructor.
  - repeat constructor.
  - left.
  - right. left.
  - discriminate.
Defined.

Lemma filter_candidates_bad_pattern_witness :
  filter_candidates (H := ascii_builtins)
    [lit "crane"; lit "slate"] [(lit "crane", lit "gg")]
  = Ok [].
Proof.
  apply (filter_candidates_bad_pattern (H := ascii_builtins) _ _
           (lit "crane") (lit "gg")).
  - repeat constructor.
  - repeat constructor.
  - left.
  - intros [Hlen _]. discriminate Hlen.
Defined.

Lemma filter_candidates_keeps_secret_witness :
  exists l,
    filter_candidates (H := ascii_builtins)
      [lit "crane"; lit "slate"; lit "trace"; lit "grape"]
      [(lit "slate", lit "bbgbg"); (lit "crane", lit "bggbg")] = Ok l
    /\ lit "grape" ∈ l.
Proof.
  apply (filter_candidates_keeps_secret (H := ascii_builtins)).
  - repeat constructor.
  - right. right. right. left.
  - repeat constructor.
Defined.

Lemma print_board_raises_witness :
  (print_board ascii_upper
     (add_guess (new_session []) (lit "crane") (lit "ggxgg"))).2
  = Some KeyError.
Proof.
  destruct (print_board_raises ascii_upper
              (add_guess (new_session []) (lit "crane") (lit "ggxgg")))
    as [E _].
  rewrite E. reflexivity.
Defined.

Lemma main_ends_quietly_witness :
  exists session e,
    main (H := ascii_builtins) ascii_upper
      [lit "crane"; lit "slate"] [lit "Slate"; lit "bbgbg"; lit "crane"]
    = Stopped session e
    /\ history session = [ {| word := lit "slate"; pattern := lit "bbgbg" |} ]
    /\ e = EOFError.
Proof.
  eexists _, _. split; [reflexivity|]. split; [reflexivity|].
  apply (main_ends_quietly (H := ascii_builtins) ascii_upper
           [lit "crane"; lit "slate"] [lit "Slate"; lit "bbgbg"; lit "crane"]
           (add_guess (new_session [lit "crane"; lit "slate"])
              (lit "slate") (lit "bbgbg"))).
  - exact ascii_lower_idempotent.
  - reflexivity.
Defined.

Lemma cycle_color_page_ok_witness :
  exists ss',
    cycle_color 0 2
      (init_state (H := ascii_builtins) [lit "crane"] empty_session_state)
    = Done ss'
    /\ cell ss' 0 2 = Some (chr "y").
Proof.
  destruct (cycle_color_page_ok (H := ascii_builtins) 0 2
              (init_state (H := ascii_builtins) [lit "crane"] empty_session_state)
              (fresh_page_ok [lit "crane"]))
    as (ss' & E & _ & Hc & _); [lia|lia|].
  exists ss'. split; [exact E|]. rewrite Hc. reflexivity.
Defined.

Lemma cycle_color_thrice_witness :
  (ss1 ← cycle_color 5 4
           (init_state (H := ascii_builtins) [lit "crane"] empty_session_state);
   ss2 ← cycle_color 5 4 ss1;
   cycle_color 5 4 ss2)
  = Done (init_state (H := ascii_builtins) [lit "crane"] empty_session_state).
Proof.
  apply (cycle_color_thrice (H := ascii_builtins)); [|lia|lia].
  apply fresh_page_ok.
Defined.


Lemma script_run_uninitialised_witness :
  script_run (H := ascii_builtins) (ApplyGuess (lit "crane")) empty_session_state
  = Raised empty_session_state (Py KeyError).
Proof.
  destruct (script_run_uninitialised (H := ascii_builtins)
              (ApplyGuess (lit "crane")) empty_session_state eq_refl)
    as (ss' & E & -> & _).
  exact E.
Defined.

Lemma apply_guess_records_nothing_witness :
  exists e,
    script_run (H := ascii_builtins) (ApplyGuess (lit " Crane"))
      (init_state (H := ascii_builtins) [lit "crane"] empty_session_state)
    = Raised (init_state (H := ascii_builtins) [lit "crane"] empty_session_state) e
    /\ e = NameError.
Proof.
  destruct (apply_guess_records_nothing (H := ascii_builtins) (lit " Crane")
              (init_state (H := ascii_builtins) [lit "crane"] empty_session_state))
    as (e & E & He).
  exists e. split; [exact E|]. apply He. apply fresh_page_ok.
Defined.

Lemma render_board_raises_witness :
  render_board ascii_upper
    (add_guess (new_session []) (lit "crane") (lit "gyb"))
  = Crash (Engine IndexError).
Proof.
  apply (render_board_raises ascii_upper).
  intros Hall. apply Forall_cons_1 in Hall as [Hlen _]. cbn in Hlen. lia.
Defined.

